(** * echo-dev: the recording-session coordination protocol

    A shallow embedding of the two programs that coordinate a recording
    session:

    - the browser agent, [echo-extension-chrome/src/content/index.ts]
      (function [connect] and the handlers it installs), in [Module Agent];
    - the control process (the Electron main script with its WebSocket
      server and the [ipcMain] handlers [start] and [stop]), in
      [Module Hub].

    Both programs are single-threaded and event driven: every handler is a
    function from state to state, and the event loop is a fold of [step]
    over the events the environment delivers. *)

From stdpp Require Import gmap strings list fin_maps.
From Stdlib Require Import ZArith.

Module Agent.

(** ** Data *)

(** The four instructions sent to a tab ([request.action]). *)
Inductive Action :=
  | activateInspector
  | deactivateInspector
  | activateNotification
  | deactivateNotification.

(** [e.data] of a WebSocket message event: a string for a text frame, bytes
    for a binary frame. *)
Inductive Payload :=
  | Text (s : string)
  | Binary (bs : list Byte.byte).

(** [WebSocket.readyState]. *)
Inductive ReadyState := CONNECTING | OPEN | CLOSING | CLOSED.

(** One invocation of [connect]: the socket [ws] and the two variables its
    handlers close over, [recording] and [tabStates] (a JS object keyed by
    tab id). *)
Record Conn := mkConn {
  ready : ReadyState;
  recording : bool;
  tabStates : gmap Z string
}.

(** How a handler invocation ended: an [async] listener's promise is
    fulfilled or rejected; a synchronous callback that returns is recorded
    as [Fulfilled]. *)
Inductive Completion := Fulfilled | Rejected.

(** One handler invocation that talks to tabs: the connection whose closure
    ran, the [chrome.tabs.sendMessage] calls it made, in program order, and
    how it ended.  Invocations of different listeners interleave at their
    [await]s; the log keeps the order inside each invocation only. *)
Record Run := mkRun {
  run_conn : nat;
  run_msgs : list (Z * Action);
  run_end : Completion
}.

(** The agent: every connection made so far (connection [i] is the [i]-th
    invocation of [connect]), the closures registered on
    [chrome.tabs.onActivated] and [chrome.tabs.onRemoved] (each named by the
    connection it closes over), the badge text ([None] until first set), the
    pending [setTimeout] reconnects, the pending [chrome.tabs.query]
    callbacks (by connection) and the log of invocations. *)
Record State := mkState {
  conns : list Conn;
  activatedListeners : list nat;
  removedListeners : list nat;
  badge : option string;
  timers : nat;
  queries : list nat;
  sent : list Run
}.

Definition set_ready (r : ReadyState) (k : Conn) : Conn :=
  mkConn r (recording k) (tabStates k).
Definition set_recording (b : bool) (k : Conn) : Conn :=
  mkConn (ready k) b (tabStates k).
Definition set_tabStates (f : gmap Z string → gmap Z string) (k : Conn) : Conn :=
  mkConn (ready k) (recording k) (f (tabStates k)).

Definition upd_conn (c : nat) (f : Conn → Conn) (st : State) : State :=
  mkState (alter f c (conns st)) (activatedListeners st) (removedListeners st)
          (badge st) (timers st) (queries st) (sent st).
Definition setBadgeText (text : string) (st : State) : State :=
  mkState (conns st) (activatedListeners st) (removedListeners st)
          (Some text) (timers st) (queries st) (sent st).
Definition log_run (r : Run) (st : State) : State :=
  mkState (conns st) (activatedListeners st) (removedListeners st)
          (badge st) (timers st) (queries st) (sent st ++ [r]).

(** ** Handlers *)

(** [connect()]: a new socket, an empty [tabStates], [recording = false]. *)
Definition connect (st : State) : State :=
  mkState (conns st ++ [mkConn CONNECTING false ∅])
          (activatedListeners st) (removedListeners st)
          (badge st) (timers st) (queries st) (sent st).

(** [e.data === 'start']: strict equality, false for every non-string. *)
Definition is_start (d : Payload) : bool :=
  match d with
  | Text s => bool_decide (s = "start")
  | Binary _ => false
  end.

(** The pair of instructions chosen by [if (recording) ... else ...]. *)
Definition instructions (rec : bool) : Action * Action :=
  if rec then (activateInspector, activateNotification)
  else (deactivateInspector, deactivateNotification).

(** [!tabId] for a number. *)
Definition falsy (tabId : Z) : bool := (tabId =? 0)%Z.

(** [ws.onopen]: badge ['ON'], then one more listener on each of
    [chrome.tabs.onActivated] and [chrome.tabs.onRemoved]. *)
Definition onopen (c : nat) (st : State) : State :=
  mkState (conns st) (activatedListeners st ++ [c]) (removedListeners st ++ [c])
          (Some "ON") (timers st) (queries st) (sent st).

(** [ws.onmessage]: assign [recording], then call [chrome.tabs.query]; its
    callback runs later, see [query_callback]. *)
Definition onmessage (c : nat) (d : Payload) (st : State) : State :=
  mkState (alter (set_recording (is_start d)) c (conns st))
          (activatedListeners st) (removedListeners st)
          (badge st) (timers st) (queries st ++ [c]) (sent st).

(** The loop [for (let i in tabs)] of the query callback; an element of
    [tabs] is the [id] of that tab ([number | undefined]).  A tab without
    id ends the callback ([return]). *)
Fixpoint query_loop (rec : bool) (tabs : list (option Z)) : list (Z * Action) :=
  match tabs with
  | [] => []
  | None :: _ => []
  | Some tabId :: rest =>
      if falsy tabId then []
      else (tabId, fst (instructions rec)) :: (tabId, snd (instructions rec))
             :: query_loop rec rest
  end.

(** The callback given to [chrome.tabs.query]; it reads [recording] when it
    runs.  The [sendMessage] calls are not awaited. *)
Definition query_callback (c : nat) (tabs : list (option Z)) (st : State) : State :=
  match conns st !! c with
  | Some k => log_run (mkRun c (query_loop (recording k) tabs) Fulfilled) st
  | None => st
  end.

(** [ws.onclose]: badge ['OFF'], then [setTimeout(connect, 1000)]. *)
Definition onclose (c : nat) (st : State) : State :=
  mkState (conns st) (activatedListeners st) (removedListeners st)
          (Some "OFF") (S (timers st)) (queries st) (sent st).

(** [ws.close()], as called by [ws.onerror]. *)
Definition ws_close (k : Conn) : Conn :=
  match ready k with
  | CONNECTING | OPEN => set_ready CLOSING k
  | CLOSING | CLOSED => k
  end.

Definition onerror (c : nat) (st : State) : State := upd_conn c ws_close st.

Section Tabs.

(** The browser's answer to [chrome.tabs.sendMessage(tabId, {action})]:
    [true] when the promise is fulfilled, [false] when it is rejected (no
    receiving end in that tab). *)
Variable delivered : Z → Action → bool.

(** The [chrome.tabs.onActivated] listener registered by connection [c]. *)
Definition activated_listener (tabId : Z) (st : State) (c : nat) : State :=
  match conns st !! c with
  | None => st
  | Some k =>
      if falsy tabId then log_run (mkRun c [] Fulfilled) st
      else
        let st1 := upd_conn c (set_tabStates (insert tabId "ON")) st in
        let '(a1, a2) := instructions (recording k) in
        if delivered tabId a1 then
          log_run (mkRun c [(tabId, a1); (tabId, a2)]
                     (if delivered tabId a2 then Fulfilled else Rejected)) st1
        else log_run (mkRun c [(tabId, a1)] Rejected) st1
  end.

(** The [chrome.tabs.onRemoved] listener registered by connection [c]. *)
Definition removed_listener (tabId : Z) (st : State) (c : nat) : State :=
  setBadgeText "OFF" (upd_conn c (set_tabStates (delete tabId)) st).

(** ** The event loop *)

Inductive Event :=
  | WsOpen (c : nat)
  | WsMessage (c : nat) (d : Payload)
  | WsClose (c : nat) (failed : bool)
  | TimerFired
  | QueryDone (i : nat) (tabs : list (option Z))
  | TabActivated (tabId : Z)
  | TabRemoved (tabId : Z).

Definition ready_of (c : nat) (st : State) : option ReadyState :=
  ready <$> conns st !! c.

(** The task the browser runs when connection [c] is closed: [readyState]
    becomes [CLOSED]; if the connection failed, [error] is fired at the
    socket; then [close] is fired. *)
Definition closed_task (c : nat) (failed : bool) (st : State) : State :=
  let st1 := upd_conn c (set_ready CLOSED) st in
  onclose c (if failed then onerror c st1 else st1).

(** An event is delivered to the handlers the browser would run for it: a
    socket opens once, from [CONNECTING]; messages arrive only while it is
    [OPEN]; it closes once, cleanly or not; a timer fires only if one is
    pending; [QueryDone i tabs] completes the [i]-th pending query. *)
Definition step (st : State) (e : Event) : State :=
  match e with
  | WsOpen c =>
      match ready_of c st with
      | Some CONNECTING => onopen c (upd_conn c (set_ready OPEN) st)
      | _ => st
      end
  | WsMessage c d =>
      match ready_of c st with
      | Some OPEN => onmessage c d st
      | _ => st
      end
  | WsClose c failed =>
      match ready_of c st with
      | Some CLOSED | None => st
      | Some _ => closed_task c failed st
      end
  | TimerFired =>
      match timers st with
      | O => st
      | S n =>
          connect (mkState (conns st) (activatedListeners st) (removedListeners st)
                           (badge st) n (queries st) (sent st))
      end
  | QueryDone i tabs =>
      match queries st !! i with
      | Some c =>
          query_callback c tabs
            (mkState (conns st) (activatedListeners st) (removedListeners st)
                     (badge st) (timers st) (delete i (queries st)) (sent st))
      | None => st
      end
  | TabActivated tabId => foldl (activated_listener tabId) st (activatedListeners st)
  | TabRemoved tabId => foldl (removed_listener tabId) st (removedListeners st)
  end.

Definition run (st : State) (evs : list Event) : State := foldl step st evs.

End Tabs.

(** The script's last statement, [connect()], on the empty agent. *)
Definition init : State := connect (mkState [] [] [] None 0 [] []).

Definition all_delivered : Z → Action → bool := λ _ _, true.
Definition none_delivered : Z → Action → bool := λ _ _, false.

(** ** How one connection evolves *)

Definition rec_of (c : nat) (st : State) : option bool :=
  recording <$> conns st !! c.

(** The Session of the agent: [recording] of the connection made last. *)
Definition session (st : State) : option bool :=
  recording <$> last (conns st).

Definition all_on (m : gmap Z string) : Prop :=
  map_Forall (λ _ v, v = "ON") m.

(** What every handler keeps of a connection: a socket never returns to
    [CONNECTING], the registry keeps holding ['ON'] only, and, when
    [keep_rec] is set, [recording] is unchanged. *)
Definition evolves (keep_rec : bool) (k k' : Conn) : Prop :=
  (ready k ≠ CONNECTING → ready k' ≠ CONNECTING) ∧
  (keep_rec = true → recording k' = recording k) ∧
  (all_on (tabStates k) → all_on (tabStates k')).

Definition evolved (b : bool) (n : nat) (k : Conn) (st : State) : Prop :=
  ∃ k', conns st !! n = Some k' ∧ evolves b k k'.

(** [e] is a message event on connection [n]. *)
Definition is_message_on (n : nat) (e : Event) : bool :=
  match e with
  | WsMessage c _ => bool_decide (c = n)
  | _ => false
  end.

(** No event of [evs] is a message on connection [n]. *)
Definition silent_on (n : nat) (evs : list Event) : bool :=
  forallb (λ e, negb (is_message_on n e)) evs.

(** ** Definitions used to state the properties *)

(** The frames [frames], handed one after the other to [ws.onmessage] of
    connection [c]. *)
Definition frames_handled (c : nat) (frames : list Payload) (st : State) : State :=
  foldl (λ s d, onmessage c d s) st frames.

(** The two tokens of the wire protocol and the value of [recording] each
    stands for: ["start"] is RECORDING, ["stop"] is IDLE. *)
Definition recognized (d : Payload) : option bool :=
  match d with
  | Text s =>
      if bool_decide (s = "start") then Some true
      else if bool_decide (s = "stop") then Some false
      else None
  | Binary _ => None
  end.

(** The command of the last recognized token among [frames]. *)
Definition last_recognized (frames : list Payload) : option bool :=
  last (omap recognized frames).

(** [recording] as the closure of connection [c] reads it. *)
Definition recording_at (st : State) (c : nat) : bool :=
  default false (rec_of c st).

(** The agent without its log. *)
Definition core (st : State) :=
  (conns st, activatedListeners st, removedListeners st, badge st, timers st,
   queries st).



Section Counting.

Variable delivered : Z → Action → bool.

(** The invocation of the [onActivated] listener of connection [c] on
    [tabId], when its closure holds [recording = rec]: the second
    [sendMessage] is reached only if the first [await] does not throw. *)
Definition dispatch_run (tabId : Z) (c : nat) (rec : bool) : Run :=
  if falsy tabId then mkRun c [] Fulfilled
  else
    let '(a1, a2) := instructions rec in
    if delivered tabId a1 then
      mkRun c [(tabId, a1); (tabId, a2)]
        (if delivered tabId a2 then Fulfilled else Rejected)
    else mkRun c [(tabId, a1)] Rejected.

(** [e] opens a socket in state [st]. *)
Definition opens_now (st : State) (e : Event) : bool :=
  match e with
  | WsOpen c => match ready_of c st with Some CONNECTING => true | _ => false end
  | _ => false
  end.

(** The number of sockets opened along [evs]. *)
Fixpoint count_opens (st : State) (evs : list Event) : nat :=
  match evs with
  | [] => 0
  | e :: rest =>
      (if opens_now st e then 1 else 0) + count_opens (step delivered st e) rest
  end.

End Counting.

(** The closures on [chrome.tabs.onActivated] are pairwise distinct and
    each belongs to a connection whose socket has left [CONNECTING]. *)
Definition listeners_ok (st : State) : Prop :=
  NoDup (activatedListeners st) ∧
  ∀ c, c ∈ activatedListeners st →
       ∃ k, conns st !! c = Some k ∧ ready k ≠ CONNECTING.

(** What the badge is about: the socket states, the badge and the pending
    reconnects. *)
Definition view (st : State) : list ReadyState * option string * nat :=
  (ready <$> conns st, badge st, timers st).

(** The Transport Link is [OPEN]: some socket of the agent is. *)
Definition link_open (st : State) : Prop := OPEN ∈ (ready <$> conns st).

(** Either the last socket is the only one not closed and the badge reads
    ['ON'] exactly if it is open, or every socket is closed, the badge reads
    ['OFF'] and one reconnect is pending. *)
Definition view_ok (v : list ReadyState * option string * nat) : Prop :=
  let '(rs, b, t) := v in
  (t = 0 ∧ ∃ pre r, rs = pre ++ [r] ∧ Forall (λ x, x = CLOSED) pre ∧
     ((r = CONNECTING ∧ b ≠ Some "ON") ∨ (r = OPEN ∧ b = Some "ON")))
  ∨ (t = 1 ∧ Forall (λ x, x = CLOSED) rs ∧ b = Some "OFF").

(** No tab is closed along [evs]. *)
Definition no_removal (evs : list Event) : bool :=
  forallb (λ e, match e with TabRemoved _ => false | _ => true end) evs.


(** ** Definitions for the socket life cycle and the registries *)

Global Instance ReadyState_eq_dec : EqDecision ReadyState.
Proof. solve_decision. Defined.

(** The number of sockets that have closed. *)
Definition closed_sockets (st : State) : nat :=
  length (filter (λ r, r = CLOSED) (ready <$> conns st)).

(** The registry [tabStates] of connection [c]. *)
Definition registry_of (c : nat) (st : State) : gmap Z string :=
  default ∅ (tabStates <$> conns st !! c).

(** Either no reconnect is pending and the last socket is the only one not
    closed, or every socket is closed and one reconnect is pending. *)
Definition sockets_ok (rs : list ReadyState) (t : nat) : Prop :=
  (t = 0 ∧ ∃ pre r, rs = pre ++ [r] ∧ Forall (λ x, x = CLOSED) pre ∧
     (r = CONNECTING ∨ r = OPEN))
  ∨ (t = 1 ∧ rs ≠ [] ∧ Forall (λ x, x = CLOSED) rs).


(** [st] with [q] as its pending queries. *)
Definition set_queries (q : list nat) (st : State) : State :=
  mkState (conns st) (activatedListeners st) (removedListeners st)
          (badge st) (timers st) q (sent st).


(** The shape of the instructions of one invocation when [recording = b]:
    for each tab the first instruction of the pair and then the second, to
    the same tab; at most the very last pair lacks its second
    instruction. *)
Fixpoint well_paired (b : bool) (msgs : list (Z * Action)) : Prop :=
  match msgs with
  | [] => True
  | [(t, a)] => a = fst (instructions b)
  | (t, a) :: (t', a') :: rest =>
      t' = t ∧ a = fst (instructions b) ∧ a' = snd (instructions b) ∧
      well_paired b rest
  end.

End Agent.

(** * The control process *)

Module Hub.

(** How a call of [ws.send] ends. *)
Inductive SendResult := Returned | Threw.

(** One call [clients[i].send(data)]. *)
Record Call := mkCall {
  call_link : nat;
  call_data : string;
  call_result : SendResult
}.

(** The control process: the sockets the server has accepted, by identity,
    each with whether it is still open (state kept by the [ws] library);
    the array [clients] of references to them; the [send] calls made. *)
Record State := mkState {
  sockets : list bool;
  clients : list nat;
  calls : list Call
}.

Definition is_open (socks : list bool) (l : nat) : bool :=
  default false (socks !! l).

Section Ws.

(** [send] of the [ws] library on socket [l], given whether [l] is still
    open. *)
Variable ws_send : nat → bool → string → SendResult.

(** The loop [for (let i in clients) clients[i].send(data)].  There is no
    [try]: a call that throws ends the loop and the handler. *)
Fixpoint send_each (socks : list bool) (cs : list nat) (data : string) : list Call :=
  match cs with
  | [] => []
  | l :: rest =>
      match ws_send l (is_open socks l) data with
      | Returned => mkCall l data Returned :: send_each socks rest data
      | Threw => [mkCall l data Threw]
      end
  end.

(** [ipcMain.handle('start', ...)] and [ipcMain.handle('stop', ...)]. *)
Definition handle_start (st : State) : State :=
  mkState (sockets st) (clients st)
          (calls st ++ send_each (sockets st) (clients st) "start").
Definition handle_stop (st : State) : State :=
  mkState (sockets st) (clients st)
          (calls st ++ send_each (sockets st) (clients st) "stop").

(** [wss.on("connection", ws => ...)]: [clients.push(ws)]. *)
Definition on_connection (st : State) : State :=
  mkState (sockets st ++ [true]) (clients st ++ [length (sockets st)]) (calls st).

(** [ws.on("close", ...)]: the handler logs a line; the library has marked
    the socket closed. *)
Definition on_close (l : nat) (st : State) : State :=
  mkState (<[l := false]> (sockets st)) (clients st) (calls st).

Inductive Event :=
  | Connection
  | Message (l : nat) (data : string)
  | Error (l : nat)
  | Close (l : nat)
  | IpcStart
  | IpcStop.

Definition step (st : State) (e : Event) : State :=
  match e with
  | Connection => on_connection st
  | Message _ _ => st
  | Error _ => st
  | Close l => on_close l st
  | IpcStart => handle_start st
  | IpcStop => handle_stop st
  end.

Definition run (st : State) (evs : list Event) : State := foldl step st evs.

End Ws.

Definition init : State := mkState [] [] [].

(** The command an operator action broadcasts. *)
Definition command_of (e : Event) : option string :=
  match e with
  | IpcStart => Some "start"
  | IpcStop => Some "stop"
  | _ => None
  end.

Definition always_returns : nat → bool → string → SendResult := λ _ _ _, Returned.

(** The frames sent on link [l], in order, among the calls [cs]. *)
Definition frames_to (l : nat) (cs : list Call) : list string :=
  call_data <$> filter (λ c, call_link c = l) cs.

End Hub.

(** * The operator's buttons *)

Module Preload.

(** The two buttons of the control window, [btnStart] and [btnStop]. *)
Inductive Button := btnStart | btnStop.

(** The click listener of a button: [ipcRenderer.invoke('start')] or
    [ipcRenderer.invoke('stop')], which runs the handler of that name in the
    main process. *)
Definition click (b : Button) : Hub.Event :=
  match b with
  | btnStart => Hub.IpcStart
  | btnStop => Hub.IpcStop
  end.

(** The channel name a button invokes. *)
Definition command (b : Button) : string :=
  match b with
  | btnStart => "start"
  | btnStop => "stop"
  end.

End Preload.

(** * The content script *)

Module Content.

(** A call on an [Inspector] instance; instances are numbered in the order
    [new Inspector()] made them. *)
Inductive Call := Activate (i : nat) | Deactivate (i : nat).

(** The content script of one tab: the module variable [inspector]
    ([None] while undefined), the number of instances constructed, the
    invocations of [initialize] suspended at [await import(...)], the
    invocations of [activateInspector] whose [await initialize()] has
    settled and that have not resumed yet, the calls made on instances and
    the lines written by [console.log]. *)
Record State := mkState {
  inspector : option nat;
  created : nat;
  importing : nat;
  resuming : nat;
  calls : list Call;
  console : list string
}.

Definition log (line : string) (st : State) : State :=
  mkState (inspector st) (created st) (importing st) (resuming st) (calls st)
          (console st ++ [line]).

Definition call (c : Call) (st : State) : State :=
  mkState (inspector st) (created st) (importing st) (resuming st) (calls st ++ [c])
          (console st).

(** [activateInspector], up to its first suspension: with no inspector it
    waits for [initialize]; with one it calls [inspector.activate()] at
    once. *)
Definition activateInspector (st : State) : State :=
  let st1 := log "activateInspector" st in
  match inspector st1 with
  | None =>
      mkState None (created st1) (S (importing st1)) (resuming st1) (calls st1)
              (console st1)
  | Some i => call (Activate i) st1
  end.

(** [deactivateInspector]: [if (inspector) inspector.deactivate()]. *)
Definition deactivateInspector (st : State) : State :=
  let st1 := log "deactivateInspector" st in
  match inspector st1 with
  | Some i => call (Deactivate i) st1
  | None => st1
  end.

Definition activateNotification (st : State) : State := log "activateNotification" st.
Definition deactivateNotification (st : State) : State := log "deactivateNotification" st.

(** The [chrome.runtime.onMessage] listener: a chain of [===] on
    [request.action]; any other action falls through. *)
Definition onMessage (action : string) (st : State) : State :=
  if bool_decide (action = "activateInspector") then activateInspector st
  else if bool_decide (action = "deactivateInspector") then deactivateInspector st
  else if bool_decide (action = "activateNotification") then activateNotification st
  else if bool_decide (action = "deactivateNotification") then deactivateNotification st
  else st.

(** [initialize] after its [await import(...)]:
    [inspector = new Inspector()], then the log line; the invocation of
    [activateInspector] that awaited it becomes ready to resume. *)
Definition initialized (st : State) : State :=
  log "create inspector"
    (mkState (Some (created st)) (S (created st)) (importing st) (S (resuming st))
             (calls st) (console st)).

(** [activateInspector] after its [await initialize()]:
    [await inspector.activate()] on whatever [inspector] holds now; on
    [undefined] the call would throw and the invocation would end. *)
Definition resumed (st : State) : State :=
  match inspector st with
  | Some i => call (Activate i) st
  | None => st
  end.

Inductive Event :=
  | Message (action : string)
  | Imported
  | ImportFailed
  | Resumed.

Definition step (st : State) (e : Event) : State :=
  match e with
  | Message action => onMessage action st
  | Imported =>
      match importing st with
      | O => st
      | S n =>
          initialized (mkState (inspector st) (created st) n (resuming st)
                               (calls st) (console st))
      end
  | ImportFailed =>
      match importing st with
      | O => st
      | S n =>
          mkState (inspector st) (created st) n (resuming st) (calls st) (console st)
      end
  | Resumed =>
      match resuming st with
      | O => st
      | S n =>
          resumed (mkState (inspector st) (created st) (importing st) n
                           (calls st) (console st))
      end
  end.

Definition run (st : State) (evs : list Event) : State := foldl step st evs.

(** [let inspector: Inspector;] and nothing else yet. *)
Definition init : State := mkState None 0 0 0 [] [].

(** The instance a call is made on. *)
Definition target (c : Call) : nat :=
  match c with Activate i | Deactivate i => i end.

(** The variable holds the instance made last; an invocation about to
    resume finds the variable set; every call was made on an instance that
    exists. *)
Definition consistent (st : State) : Prop :=
  inspector st = match created st with O => None | S n => Some n end ∧
  (0 < resuming st → 0 < created st) ∧
  Forall (λ c, target c < created st) (calls st).

End Content.

(** * The windows of the control process *)

Module Shell.

(** The windows of the application: [BrowserWindow.getAllWindows()] by
    window id, the id of the overlay made by [createChildWindow], the
    number of windows created so far, and whether [app.quit()] was
    called. *)
Record State := mkState {
  windows : list nat;
  child : nat;
  next : nat;
  quit : bool
}.

(** [createWindow()]: one more window. *)
Definition createWindow (st : State) : State :=
  mkState (windows st ++ [next st]) (child st) (S (next st)) (quit st).

(** The state after [app.whenReady().then(...)]:
    [win = createWindow()], then [child = createChildWindow()]. *)
Definition ready : State := mkState [0; 1] 1 2 false.

(** The handler of [app.on('activate')]. *)
Definition on_activate (st : State) : State :=
  match windows st with
  | [] => createWindow st
  | [w] => if bool_decide (w = child st) then createWindow st else st
  | _ => st
  end.

Section Platform.

(** [process.platform === 'darwin']. *)
Variable darwin : bool.

(** The handler of [app.on('window-all-closed')]. *)
Definition on_window_all_closed (st : State) : State :=
  if darwin then st else mkState (windows st) (child st) (next st) true.

(** A window is asked to close.  The overlay's [close] handler calls
    [e.preventDefault()], which cancels the close; any other window closes,
    and when none is left [window-all-closed] is emitted. *)
Definition close_requested (w : nat) (st : State) : State :=
  if bool_decide (w = child st) then st
  else
    let st1 := mkState (filter (λ x, x ≠ w) (windows st)) (child st) (next st)
                       (quit st) in
    match windows st1 with
    | [] => if bool_decide (w ∈ windows st) then on_window_all_closed st1 else st1
    | _ => st1
    end.

Inductive Event :=
  | Activate
  | CloseRequested (w : nat).

Definition step (st : State) (e : Event) : State :=
  match e with
  | Activate => on_activate st
  | CloseRequested w => close_requested w st
  end.

Definition run (st : State) (evs : list Event) : State := foldl step st evs.

End Platform.

(** The overlay is among the windows, [app.quit()] has not been called, no
    window is listed twice and window ids are below the next id. *)
Definition shell_ok (st : State) : Prop :=
  child st ∈ windows st ∧ quit st = false ∧ NoDup (windows st) ∧
  Forall (λ w, w < next st) (windows st).

End Shell.

(** * Facts about the agent *)

(** A property kept by every function of a list is kept by the left fold. *)
Lemma foldl_preserves {A B} (P : A → Prop) (f : A → B → A) (l : list B) (a : A) :
  (∀ x b, P x → P (f x b)) → P a → P (foldl f a l).
Proof.
  intros Hf. revert a. induction l as [|b l IH]; intros a Ha; simpl; auto.
Qed.

Lemma delete_snoc {A} (l : list A) (x : A) : delete (length l) (l ++ [x]) = l.
Proof. rewrite (delete_middle l [] x). apply app_nil_r. Qed.

Module AgentFacts.
Import Agent.

Example run_start_focus :
  sent (run all_delivered init
          [WsOpen 0; WsMessage 0 (Text "start"); QueryDone 0 [Some 7%Z]; TabActivated 9])
  = [mkRun 0 [(7%Z, activateInspector); (7%Z, activateNotification)] Fulfilled;
     mkRun 0 [(9%Z, activateInspector); (9%Z, activateNotification)] Fulfilled].
Proof. reflexivity. Qed.

Lemma evolves_refl b k : evolves b k k.
Proof. by repeat split. Qed.

Lemma evolves_trans b k1 k2 k3 : evolves b k1 k2 → evolves b k2 k3 → evolves b k1 k3.
Proof.
  intros (H1 & H2 & H3) (G1 & G2 & G3). repeat split; auto.
  intros Hb. rewrite (G2 Hb). auto.
Qed.

Lemma evolved_upd_conn b n k c f st :
  (∀ x, c = n → evolves b x (f x)) →
  evolved b n k st → evolved b n k (upd_conn c f st).
Proof.
  intros Hf (k' & Hk' & Hev). unfold evolved, upd_conn; simpl.
  rewrite list_lookup_alter. case_decide as Hc.
  - subst c. rewrite Hk'. simpl. eexists; split; [done|].
    eapply evolves_trans; eauto.
  - eauto.
Qed.

Lemma evolved_same_conns b n k st st' :
  conns st' = conns st → evolved b n k st → evolved b n k st'.
Proof. intros Heq (k' & Hk' & Hev). exists k'. by rewrite Heq. Qed.

Lemma evolved_connect b n k st : evolved b n k st → evolved b n k (connect st).
Proof.
  intros (k' & Hk' & Hev). exists k'. split; [|done].
  simpl. by apply lookup_app_l_Some.
Qed.

Lemma evolves_set_ready b r k : r ≠ CONNECTING → evolves b k (set_ready r k).
Proof. intros Hr. by repeat split. Qed.

Lemma evolves_insert_on b t k : evolves b k (set_tabStates (insert t "ON") k).
Proof.
  repeat split; auto. simpl. intros H. by apply map_Forall_insert_2.
Qed.

Lemma evolves_delete b t k : evolves b k (set_tabStates (delete t) k).
Proof.
  repeat split; auto. simpl. intros H. by apply map_Forall_delete.
Qed.

Lemma evolved_activated_listener d b n k t st c :
  evolved b n k st → evolved b n k (activated_listener d t st c).
Proof.
  intros H. unfold activated_listener.
  destruct (conns st !! c) as [kc|]; [|done].
  destruct (falsy t); [by eapply evolved_same_conns; [|exact H]|].
  destruct (instructions (recording kc)) as [a1 a2].
  destruct (d t a1);
    (eapply evolved_same_conns;
     [|apply (evolved_upd_conn b n k c (set_tabStates (insert t "ON")) st);
       [intros; apply evolves_insert_on|exact H]]); done.
Qed.

Lemma evolved_removed_listener b n k t st c :
  evolved b n k st → evolved b n k (removed_listener t st c).
Proof.
  intros H. unfold removed_listener.
  eapply evolved_same_conns;
    [|apply (evolved_upd_conn b n k c (set_tabStates (delete t)) st);
      [intros; apply evolves_delete|exact H]]; done.
Qed.

Lemma closed_task_eq c failed st :
  closed_task c failed st = onclose c (upd_conn c (set_ready CLOSED) st).
Proof.
  unfold closed_task. destruct failed; [|done].
  unfold onerror, upd_conn, onclose; simpl. f_equal.
  rewrite list_alter_alter_eq. by apply list_alter_ext.
Qed.

Lemma evolved_step d b n k st e :
  (b = true → is_message_on n e = false) →
  evolved b n k st → evolved b n k (step d st e).
Proof.
  intros Hb H. destruct e as [c|c p|c failed| |i tabs|t|t]; simpl step.
  - destruct (ready_of c st) as [[]|]; try done.
    eapply evolved_same_conns;
      [|apply (evolved_upd_conn _ n k c (set_ready OPEN) st);
        [intros; by apply evolves_set_ready|exact H]]; done.
  - destruct (ready_of c st) as [[]|]; try done.
    destruct H as (k' & Hk' & Hev). unfold evolved, onmessage; simpl.
    rewrite list_lookup_alter. case_decide as Hc.
    + subst c. rewrite Hk'. simpl. eexists; split; [done|].
      eapply evolves_trans; [exact Hev|].
      repeat split; auto. intros ->.
      simpl in Hb. rewrite bool_decide_eq_true_2 in Hb by done.
      by specialize (Hb eq_refl).
    + eauto.
  - destruct (ready_of c st) as [[]|]; try done;
      (rewrite closed_task_eq; eapply evolved_same_conns;
       [|apply (evolved_upd_conn _ n k c (set_ready CLOSED) st);
         [intros; by apply evolves_set_ready|exact H]]; done).
  - destruct (timers st); [done|].
    apply evolved_connect. by eapply evolved_same_conns; [|exact H].
  - destruct (queries st !! i) as [c|]; [|done].
    unfold query_callback; simpl.
    destruct (conns st !! c); by eapply evolved_same_conns; [|exact H].
  - apply (foldl_preserves (evolved _ n k)); [|done].
    intros; by apply evolved_activated_listener.
  - apply (foldl_preserves (evolved _ n k)); [|done].
    intros; by apply evolved_removed_listener.
Qed.

Lemma evolved_run d b n k evs st :
  (b = true → silent_on n evs = true) →
  evolved b n k st → evolved b n k (run d st evs).
Proof.
  revert st. induction evs as [|e evs IH]; intros st Hb H; [done|].
  simpl. apply IH.
  - intros Hbt. specialize (Hb Hbt). unfold silent_on in Hb. simpl in Hb.
    by apply andb_true_iff in Hb as [_ ?].
  - apply evolved_step; [|done].
    intros Hbt. specialize (Hb Hbt). unfold silent_on in Hb. simpl in Hb.
    apply andb_true_iff in Hb as [Hb _]. by apply negb_true_iff in Hb.
Qed.

(** ** Frames and the Session *)

Lemma rec_of_onmessage c d st n :
  rec_of n (onmessage c d st)
  = if decide (c = n) then (λ _, is_start d) <$> rec_of c st else rec_of n st.
Proof.
  unfold rec_of, onmessage; simpl. rewrite list_lookup_alter.
  case_decide; [|done]. by destruct (conns st !! c).
Qed.

Lemma conns_length_frames_handled c frames st :
  length (conns (frames_handled c frames st)) = length (conns st).
Proof.
  unfold frames_handled. revert st.
  induction frames as [|d frames IH]; intros st; [done|].
  simpl. rewrite IH. simpl. by rewrite length_alter.
Qed.

Lemma frames_handled_snoc c frames d st :
  frames_handled c (frames ++ [d]) st = onmessage c d (frames_handled c frames st).
Proof. unfold frames_handled. by rewrite foldl_snoc. Qed.

Lemma recognized_is_start d b : recognized d = Some b → b = is_start d.
Proof.
  destruct d as [s|bs]; simpl; [|done].
  case_bool_decide; [naive_solver|].
  case_bool_decide; naive_solver.
Qed.

(** The token ["pause"] after ["start"]: the last recognized token says
    RECORDING, the handler leaves [recording = false]. *)
Lemma last_recognized_refuted :
  last_recognized [Text "start"; Text "pause"] = Some true ∧
  rec_of 0 (frames_handled 0 [Text "start"; Text "pause"] init) = Some false.
Proof. split; reflexivity. Qed.

(** C1, amended: after any non-empty sequence of frames handled by
    [ws.onmessage], [recording] is decided by the last frame alone: true if
    it is the text ["start"], false for every other payload; when that last
    frame is a recognized token this is the command of the last recognized
    token. *)
Theorem last_frame_wins st c frames d :
  c < length (conns st) →
  rec_of c (frames_handled c (frames ++ [d]) st) = Some (is_start d) ∧
  (is_Some (recognized d) → last_recognized (frames ++ [d]) = Some (is_start d)).
Proof.
  intros Hc. split.
  - rewrite frames_handled_snoc, rec_of_onmessage.
    rewrite decide_True by done. unfold rec_of.
    destruct (lookup_lt_is_Some_2 (conns (frames_handled c frames st)) c) as [k ->];
      [by rewrite conns_length_frames_handled|done].
  - intros [b Hb]. unfold last_recognized.
    rewrite omap_app. simpl. rewrite Hb. simpl.
    rewrite last_snoc. f_equal. by apply recognized_is_start.
Qed.

Lemma last_frame_wins_witness :
  rec_of 0 (frames_handled 0 ([Text "start"; Text "start"; Text "stop"] ++ [Text "start"]) init)
  = Some true.
Proof.
  refine (proj1 (last_frame_wins init 0 [Text "start"; Text "start"; Text "stop"]
                   (Text "start") _)).
  simpl. lia.
Defined.

(** ** A fresh connection *)

Lemma rec_of_connect st :
  rec_of (length (conns st)) (connect st) = Some false.
Proof. unfold rec_of, connect; simpl. by rewrite list_lookup_middle. Qed.

Lemma session_connect st : session (connect st) = Some false.
Proof. unfold session, connect; simpl. by rewrite last_snoc. Qed.

(** C4: [connect] starts every connection with [recording = false], so the
    Session of the agent is IDLE right after it, also when it is the
    reconnect run by the timer of [ws.onclose]; and the flag of that
    connection stays false along every sequence of events that has no
    message event on that connection. *)
Theorem connect_resets_session d st evs :
  silent_on (length (conns st)) evs = true →
  session (connect st) = Some false ∧
  (0 < timers st → session (step d st TimerFired) = Some false) ∧
  rec_of (length (conns st)) (run d (connect st) evs) = Some false.
Proof.
  intros Hs. split; [apply session_connect|]. split.
  - intros Ht. simpl. destruct (timers st); [lia|]. apply session_connect.
  - pose proof (rec_of_connect st) as Hn. unfold rec_of in Hn.
    destruct (conns (connect st) !! length (conns st)) as [k|] eqn:Hk; [|done].
    simpl in Hn. injection Hn as Hrec.
    destruct (evolved_run d true (length (conns st)) k evs (connect st))
      as (k' & Hk' & _ & Hk'rec & _); [done|by exists k; split; [|apply evolves_refl]|].
    unfold rec_of. rewrite Hk'. simpl. rewrite Hk'rec by done. by rewrite Hrec.
Qed.

Lemma connect_resets_session_witness :
  rec_of 1 (run all_delivered
              (connect (run all_delivered init
                          [WsOpen 0; WsMessage 0 (Text "start"); WsClose 0 false]))
              [WsOpen 1; TabActivated 4; WsMessage 0 (Text "start"); TabRemoved 4])
  = Some false.
Proof.
  refine (proj2 (proj2 (connect_resets_session all_delivered
            (run all_delivered init [WsOpen 0; WsMessage 0 (Text "start"); WsClose 0 false])
            [WsOpen 1; TabActivated 4; WsMessage 0 (Text "start"); TabRemoved 4] _))).
  reflexivity.
Defined.

(** ** Unrecognized tokens *)

Lemma query_loop_idle tabs :
  Forall (λ m, m.2 = deactivateInspector ∨ m.2 = deactivateNotification)
         (query_loop false tabs).
Proof.
  induction tabs as [|[t|] tabs IH]; simpl; [done| |done].
  destruct (falsy t); [done|].
  constructor; [by left|]. constructor; [by right|]. done.
Qed.

(** C6: a frame that is neither ["start"] nor ["stop"] sets
    [recording = false]; the handler takes the same path as for ["stop"],
    with no exceptional exit: on an open socket the event is handled by
    [onmessage], one query is left pending, and its callback returns after
    issuing nothing but deactivation instructions. *)
Theorem unrecognized_token_is_idle d st c p tabs :
  recognized p = None →
  ready_of c st = Some OPEN →
  let st1 := step d st (WsMessage c p) in
  rec_of c st1 = Some false ∧
  st1 = onmessage c (Text "stop") st ∧
  ∃ msgs,
    step d st1 (QueryDone (length (queries st)) tabs)
    = log_run (mkRun c msgs Fulfilled)
        (mkState (conns st1) (activatedListeners st) (removedListeners st)
                 (badge st) (timers st) (queries st) (sent st)) ∧
    Forall (λ m, m.2 = deactivateInspector ∨ m.2 = deactivateNotification) msgs.
Proof.
  intros Hp Hr. simpl. rewrite Hr.
  assert (Hs : is_start p = false).
  { destruct p as [s|bs]; simpl in *; [|done]. by case_bool_decide. }
  unfold ready_of in Hr. destruct (conns st !! c) as [k|] eqn:Hk; [|done].
  split; [|split].
  - rewrite rec_of_onmessage, decide_True by done. unfold rec_of. rewrite Hk.
    simpl. by rewrite Hs.
  - unfold onmessage. by rewrite Hs.
  - exists (query_loop false tabs). split; [|apply query_loop_idle].
    unfold onmessage at 1; simpl.
    rewrite lookup_app_r, Nat.sub_diag by lia. simpl.
    unfold query_callback; simpl.
    rewrite list_lookup_alter_eq, Hk. simpl. rewrite Hs.
    unfold log_run; simpl. f_equal.
    apply delete_snoc.
Qed.

Lemma unrecognized_token_is_idle_witness :
  rec_of 0 (step all_delivered
              (run all_delivered init [WsOpen 0; WsMessage 0 (Text "start")])
              (WsMessage 0 (Text "pause")))
  = Some false.
Proof.
  refine (proj1 (unrecognized_token_is_idle all_delivered
            (run all_delivered init [WsOpen 0; WsMessage 0 (Text "start")])
            0 (Text "pause") [] _ _)); reflexivity.
Defined.

(** ** The tab registry *)

Lemma conns_length_activated_listener d t st c :
  length (conns (activated_listener d t st c)) = length (conns st).
Proof.
  unfold activated_listener. destruct (conns st !! c) as [k|]; [|done].
  destruct (falsy t); [done|]. destruct (instructions (recording k)) as [a1 a2].
  destruct (d t a1); simpl; apply length_alter.
Qed.







Lemma activated_listener_eq d t st c k :
  conns st !! c = Some k →
  activated_listener d t st c
  = log_run (dispatch_run d t c (recording k))
      (if falsy t then st else upd_conn c (set_tabStates (insert t "ON")) st).
Proof.
  intros Hk. unfold activated_listener, dispatch_run. rewrite Hk.
  destruct (falsy t); [done|]. destruct (instructions (recording k)) as [a1 a2].
  by destruct (d t a1).
Qed.




(** ** Reconciliation on every frame *)

(** A second ["start"] while already RECORDING: the query is made again and
    the focused tab is sent the activation pair again. *)
Lemma matching_frame_reconciles :
  let st := run all_delivered init
              [WsOpen 0; WsMessage 0 (Text "start"); QueryDone 0 [Some 7%Z]] in
  let st' := run all_delivered st [WsMessage 0 (Text "start"); QueryDone 0 [Some 7%Z]] in
  rec_of 0 st = Some true ∧
  is_start (Text "start") = true ∧
  sent st' = sent st ++ [mkRun 0 [(7%Z, activateInspector); (7%Z, activateNotification)]
                           Fulfilled].
Proof. repeat split. Qed.

(** C5, amended: every frame received on the open socket, whether or not
    its command equals the current one, sets [recording] and makes exactly
    one [chrome.tabs.query] call and no [sendMessage] call; the callback of
    that query, run before any other frame, makes the one reconciliation
    of this frame: the instruction pair of the frame's command to each tab
    of the answer up to the first tab without id. *)
Theorem reconciliation_once_per_frame d st c p tabs :
  ready_of c st = Some OPEN →
  let st1 := step d st (WsMessage c p) in
  let st2 := step d st1 (QueryDone (length (queries st)) tabs) in
  rec_of c st1 = Some (is_start p) ∧
  queries st1 = queries st ++ [c] ∧
  sent st1 = sent st ∧
  queries st2 = queries st ∧
  sent st2 = sent st ++ [mkRun c (query_loop (is_start p) tabs) Fulfilled].
Proof.
  intros Hr. simpl. rewrite Hr.
  unfold ready_of in Hr. destruct (conns st !! c) as [k|] eqn:Hk; [|done].
  split; [|split; [done|split; [done|]]].
  - rewrite rec_of_onmessage, decide_True by done. unfold rec_of. by rewrite Hk.
  - unfold onmessage at 1 3; simpl.
    rewrite lookup_app_r, Nat.sub_diag by lia. simpl.
    unfold query_callback; simpl.
    rewrite list_lookup_alter_eq, Hk. simpl. split; [apply delete_snoc|done].
Qed.

Lemma reconciliation_once_per_frame_witness :
  sent (step all_delivered
          (step all_delivered
             (run all_delivered init [WsOpen 0; WsMessage 0 (Text "stop"); QueryDone 0 []])
             (WsMessage 0 (Text "stop")))
          (QueryDone 0 [Some 7%Z; None; Some 8%Z]))
  = [mkRun 0 [] Fulfilled;
     mkRun 0 [(7%Z, deactivateInspector); (7%Z, deactivateNotification)] Fulfilled].
Proof.
  refine (proj2 (proj2 (proj2 (proj2 (reconciliation_once_per_frame all_delivered
            (run all_delivered init [WsOpen 0; WsMessage 0 (Text "stop"); QueryDone 0 []])
            0 (Text "stop") [Some 7%Z; None; Some 8%Z] _))))).
  reflexivity.
Defined.

(** ** Delivery failures *)

Lemma core_activated_listener d d' t st st' c :
  core st = core st' →
  core (activated_listener d t st c) = core (activated_listener d' t st' c).
Proof.
  destruct st, st'. unfold core; simpl. intros [= -> -> -> -> -> ->].
  unfold activated_listener; simpl.
  destruct (_ !! c) as [k|]; [|done]. destruct (falsy t); [done|].
  destruct (instructions (recording k)) as [a1 a2].
  by destruct (d t a1), (d' t a1).
Qed.

Lemma core_removed_listener t st st' c :
  core st = core st' →
  core (removed_listener t st c) = core (removed_listener t st' c).
Proof.
  destruct st, st'. unfold core; simpl. by intros [= -> -> -> -> -> ->].
Qed.

Lemma core_foldl {A} (f g : State → A → State) l st st' :
  (∀ s s' a, core s = core s' → core (f s a) = core (g s' a)) →
  core st = core st' → core (foldl f st l) = core (foldl g st' l).
Proof.
  intros Hfg. revert st st'. induction l as [|a l IH]; intros st st' H; [done|].
  simpl. apply IH. by apply Hfg.
Qed.

Lemma core_step d d' st st' e :
  core st = core st' → core (step d st e) = core (step d' st' e).
Proof.
  intros H. destruct e as [c|c p|c failed| |i tabs|t|t].
  - destruct st, st'. unfold core in H; simpl in H. injection H as -> -> -> -> -> ->.
    unfold step, ready_of; simpl. by destruct (_ !! c) as [[[] ? ?]|].
  - destruct st, st'. unfold core in H; simpl in H. injection H as -> -> -> -> -> ->.
    unfold step, ready_of; simpl. by destruct (_ !! c) as [[[] ? ?]|].
  - destruct st, st'. unfold core in H; simpl in H. injection H as -> -> -> -> -> ->.
    unfold step, ready_of; simpl.
    destruct (_ !! c) as [[[] ? ?]|]; try done; by rewrite !closed_task_eq.
  - destruct st, st'. unfold core in H; simpl in H. injection H as -> -> -> -> -> ->.
    unfold step; simpl. by destruct timers1.
  - destruct st, st'. unfold core in H; simpl in H. injection H as -> -> -> -> -> ->.
    unfold step; simpl. destruct (_ !! i) as [c|]; [|done].
    unfold query_callback; simpl. by destruct (_ !! c).
  - simpl. assert (activatedListeners st = activatedListeners st') as ->.
    { unfold core in H. by injection H. }
    apply core_foldl; [|done]. intros; by apply core_activated_listener.
  - simpl. assert (removedListeners st = removedListeners st') as ->.
    { unfold core in H. by injection H. }
    apply core_foldl; [|done]. intros; by apply core_removed_listener.
Qed.

Lemma core_run d d' evs st st' :
  core st = core st' → core (run d st evs) = core (run d' st' evs).
Proof. intros H. by apply core_foldl; [intros; apply core_step|]. Qed.

(** With no receiving end in the focused tab, the listener stops at its
    first [await]: [activateNotification] is never sent. *)
Lemma notification_skipped_after_failure :
  sent (run none_delivered init [WsOpen 0; WsMessage 0 (Text "start"); TabActivated 5])
  = [mkRun 0 [(5%Z, activateInspector)] Rejected].
Proof. reflexivity. Qed.

(** C8, amended: whether deliveries succeed or fail has no effect on the
    agent beyond the log of what was sent: after any sequence of events the
    connections, registries, listeners, badge, timers and pending queries
    are the same under any two delivery outcomes, so later events are
    handled alike.  The query callback of [ws.onmessage] does not await: it
    issues every instruction of its loop and returns, whatever the
    outcomes.  The [onActivated] listener awaits without a catch: it always
    issues the inspector instruction; it issues the notification
    instruction only if the inspector instruction was delivered; and its
    promise is fulfilled only if both were delivered, rejected otherwise. *)
Theorem delivery_failure_effects d d' st evs i tabs t c k :
  conns st !! c = Some k →
  falsy t = false →
  let a1 := fst (instructions (recording k)) in
  let a2 := snd (instructions (recording k)) in
  core (run d st evs) = core (run d' st evs) ∧
  step d st (QueryDone i tabs) = step d' st (QueryDone i tabs) ∧
  (∀ q, queries st !! i = Some q → is_Some (conns st !! q) →
        sent (step d st (QueryDone i tabs))
        = sent st ++ [mkRun q (query_loop (recording_at st q) tabs) Fulfilled]) ∧
  sent (activated_listener d t st c)
  = sent st ++ [mkRun c ((t, a1) :: (if d t a1 then [(t, a2)] else []))
                        (if d t a1 && d t a2 then Fulfilled else Rejected)].
Proof.
  intros Hk Ht a1 a2. split; [by apply core_run|]. split; [done|]. split.
  - intros q Hq [kq Hkq]. simpl. rewrite Hq. unfold query_callback; simpl.
    rewrite Hkq. simpl. unfold recording_at, rec_of. by rewrite Hkq.
  - rewrite (activated_listener_eq d t st c k Hk), Ht. simpl. do 2 f_equal.
    unfold dispatch_run, a1, a2. rewrite Ht.
    destruct (instructions (recording k)) as [x y]. simpl.
    by destruct (d t x), (d t y).
Qed.

Lemma delivery_failure_effects_witness :
  sent (activated_listener none_delivered 5
          (run none_delivered init [WsOpen 0; WsMessage 0 (Text "start")]) 0)
  = [mkRun 0 [(5%Z, activateInspector)] Rejected].
Proof.
  refine (proj2 (proj2 (proj2 (delivery_failure_effects none_delivered all_delivered
            (run none_delivered init [WsOpen 0; WsMessage 0 (Text "start")])
            [TabActivated 5] 0 [] 5 0 (mkConn OPEN true ∅) _ _)))); reflexivity.
Defined.

(** ** The badge *)

Lemma readys_set_tabStates f (c : nat) (l : list Conn) :
  ready <$> alter (set_tabStates f) c l = ready <$> l.
Proof.
  rewrite (list_fmap_alter ready (set_tabStates f) (λ r, r)).
  - by apply list_alter_id.
  - by apply Forall_forall.
Qed.

Lemma readys_set_recording b (c : nat) (l : list Conn) :
  ready <$> alter (set_recording b) c l = ready <$> l.
Proof.
  rewrite (list_fmap_alter ready (set_recording b) (λ r, r)).
  - by apply list_alter_id.
  - by apply Forall_forall.
Qed.

Lemma readys_set_ready r (c : nat) (l : list Conn) :
  ready <$> alter (set_ready r) c l = <[c := r]> (ready <$> l).
Proof.
  rewrite (list_fmap_alter ready (set_ready r) (λ _, r)).
  - by rewrite list_insert_alter.
  - by apply Forall_forall.
Qed.

Lemma view_activated_listener d t st c :
  view (activated_listener d t st c) = view st.
Proof.
  unfold activated_listener. destruct (conns st !! c) as [k|]; [|done].
  destruct (falsy t); [done|]. destruct (instructions (recording k)) as [a1 a2].
  destruct (d t a1); unfold view; simpl; by rewrite readys_set_tabStates.
Qed.

(** Messages, query answers and tab focus leave sockets, badge and timers
    alone. *)
Lemma view_step_other d st e :
  match e with WsMessage _ _ | QueryDone _ _ | TabActivated _ => True | _ => False end →
  view (step d st e) = view st.
Proof.
  destruct e as [c|c p|c failed| |i tabs|t|t]; try done; intros _; simpl step.
  - destruct (ready_of c st) as [[]|]; try done.
    unfold view; simpl. by rewrite readys_set_recording.
  - destruct (queries st !! i) as [c|]; [|done].
    unfold query_callback; simpl. by destruct (conns st !! c).
  - apply (foldl_preserves (λ s, view s = view st)); [|done].
    intros x b <-. apply view_activated_listener.
Qed.

Lemma closed_prefix_lookup (pre : list ReadyState) r c x :
  Forall (λ y, y = CLOSED) pre →
  (pre ++ [r]) !! c = Some x → x ≠ CLOSED → c = length pre ∧ x = r.
Proof.
  intros Hpre Hc Hx. apply lookup_snoc_Some in Hc as [[_ Hc]|[-> ->]]; [|done].
  destruct Hx. eapply (proj1 (Forall_lookup _ _) Hpre); eauto.
Qed.

Lemma insert_snoc {A} (l : list A) x y : <[length l := y]> (l ++ [x]) = l ++ [y].
Proof. rewrite insert_app_r_alt by lia. by rewrite Nat.sub_diag. Qed.

Lemma view_ok_step d st e :
  match e with TabRemoved _ => False | _ => True end →
  view_ok (view st) → view_ok (view (step d st e)).
Proof.
  intros He Hv.
  destruct e as [c|c p|c failed| |i tabs|t|t];
    try (by rewrite view_step_other); try done; simpl step.
  - unfold ready_of. rewrite <- list_lookup_fmap.
    destruct ((ready <$> conns st) !! c) as [r0|] eqn:Hc; [|done].
    destruct r0; try done.
    unfold view in *; simpl. rewrite readys_set_ready.
    destruct Hv as [(Ht & pre & r & Hrs & Hpre & Hr)|(_ & Hall & _)].
    + rewrite Hrs in Hc.
      destruct (closed_prefix_lookup pre r c CONNECTING Hpre Hc) as [-> <-]; [done|].
      left. split; [done|]. exists pre, OPEN. rewrite Hrs, insert_snoc. auto.
    + by pose proof (proj1 (Forall_lookup _ _) Hall c _ Hc).
  - unfold ready_of. rewrite <- list_lookup_fmap.
    destruct ((ready <$> conns st) !! c) as [r0|] eqn:Hc; [|done].
    assert (Hclose : r0 ≠ CLOSED →
              view_ok (view (onclose c (upd_conn c (set_ready CLOSED) st)))).
    { intros Hr0. unfold view in *; simpl. rewrite readys_set_ready.
      destruct Hv as [(Ht & pre & r & Hrs & Hpre & Hr)|(_ & Hall & _)].
      - rewrite Hrs in Hc.
        destruct (closed_prefix_lookup pre r c r0 Hpre Hc) as [-> ->]; [done|].
        right. rewrite Ht, Hrs, insert_snoc. split; [done|]. split; [|done].
        apply Forall_app. split; [done|]. by constructor.
      - destruct Hr0. by apply (proj1 (Forall_lookup _ _) Hall c _ Hc). }
    destruct r0; try done; rewrite closed_task_eq; by apply Hclose.
  - destruct (timers st) as [|n] eqn:Hn; [done|].
    unfold view in *. rewrite Hn in Hv.
    destruct Hv as [(Ht & _)|(Ht & Hall & Hb)]; [done|].
    injection Ht as ->. simpl. left. split; [done|].
    exists (ready <$> conns st), CONNECTING. rewrite fmap_app. simpl.
    split; [done|]. split; [done|]. left. split; [done|]. by rewrite Hb.
Qed.

Lemma view_ok_init : view_ok (view init).
Proof. left. split; [done|]. exists [], CONNECTING. simpl. auto. Qed.

(** X3: Along every sequence of events in which no tab is closed, the badge
    reads ['ON'] exactly while a socket is open: [ws.onopen] and
    [ws.onclose] keep it so. *)
Lemma badge_tracks_link_without_removal d evs :
  no_removal evs = true →
  badge (run d init evs) = Some "ON" ↔ link_open (run d init evs).
Proof.
  intros Hq.
  assert (Hv : view_ok (view (run d init evs))).
  { revert Hq. generalize view_ok_init. generalize init.
    induction evs as [|e evs IH]; intros st Hst Hq; [done|].
    simpl in Hq. apply andb_true_iff in Hq as [He Hq].
    simpl. apply IH; [|done]. apply view_ok_step; [by destruct e|done]. }
  unfold view, link_open in *. simpl in Hv.
  destruct Hv as [(_ & pre & r & -> & Hpre & Hr)|(_ & Hall & ->)].
  - rewrite elem_of_app, list_elem_of_singleton.
    destruct Hr as [[-> Hb]|[-> Hb]]; split; try done; auto.
    intros [Hin|]; [|done].
    by pose proof (proj1 (Forall_forall _ _) Hpre _ Hin).
  - split; [done|]. intros Hin.
    by pose proof (proj1 (Forall_forall _ _) Hall _ Hin).
Qed.

(** C9: the socket is open with badge ['ON']; a tab is closed; the socket is
    still open and the badge reads ['OFF']. *)
Theorem badge_off_while_open :
  let st := run all_delivered init [WsOpen 0] in
  let st' := step all_delivered st (TabRemoved 5) in
  (ready_of 0 st = Some OPEN ∧ badge st = Some "ON") ∧
  (ready_of 0 st' = Some OPEN ∧ badge st' = Some "OFF").
Proof. repeat split. Qed.

(** ** Listeners accumulate across reconnects *)

Lemma listeners_activated_listener d t st c :
  activatedListeners (activated_listener d t st c) = activatedListeners st.
Proof.
  unfold activated_listener. destruct (conns st !! c) as [k|]; [|done].
  destruct (falsy t); [done|]. destruct (instructions (recording k)) as [a1 a2].
  by destruct (d t a1).
Qed.

Lemma listeners_step d st e :
  activatedListeners (step d st e)
  = activatedListeners st
      ++ match e with
         | WsOpen c => if opens_now st e then [c] else []
         | _ => []
         end.
Proof.
  destruct e as [c|c p|c failed| |i tabs|t|t]; simpl step; simpl opens_now;
    rewrite ?app_nil_r.
  - destruct (ready_of c st) as [[]|]; by rewrite ?app_nil_r.
  - by destruct (ready_of c st) as [[]|].
  - destruct (ready_of c st) as [[]|]; by rewrite ?closed_task_eq.
  - by destruct (timers st).
  - destruct (queries st !! i) as [c|]; [|done].
    unfold query_callback; simpl. by destruct (conns st !! c).
  - apply (foldl_preserves (λ s, activatedListeners s = activatedListeners st)); [|done].
    intros x b <-. apply listeners_activated_listener.
  - by apply (foldl_preserves (λ s, activatedListeners s = activatedListeners st)).
Qed.

Lemma listeners_ok_init : listeners_ok init.
Proof. split; [constructor|]. intros c Hc. by apply elem_of_nil in Hc. Qed.

Lemma listeners_ok_step d st e : listeners_ok st → listeners_ok (step d st e).
Proof.
  intros [Hnd Hall]. split.
  - rewrite listeners_step. destruct e as [c|c p|c failed| |i tabs|t|t];
      rewrite ?app_nil_r; try done.
    simpl. destruct (ready_of c st) as [[]|] eqn:Hr; rewrite ?app_nil_r; try done.
    apply NoDup_app. split; [done|]. split; [|apply NoDup_singleton].
    intros x Hx Hxc. apply list_elem_of_singleton in Hxc as ->.
    destruct (Hall c Hx) as (k & Hk & Hready).
    unfold ready_of in Hr. rewrite Hk in Hr. simpl in Hr. congruence.
  - intros c'. rewrite listeners_step. intros Hc'.
    apply elem_of_app in Hc' as [Hc'|Hc'].
    + destruct (Hall c' Hc') as (k & Hk & Hready).
      destruct (evolved_step d false c' k st e) as (k' & Hk' & Hev & _);
        [done|by exists k; split; [|apply evolves_refl]|].
      exists k'. split; [done|]. by apply Hev.
    + destruct e as [c|c p|c failed| |i tabs|t|t]; try by apply elem_of_nil in Hc'.
      simpl in Hc'. simpl step.
      destruct (ready_of c st) as [[]|] eqn:Hr; try by apply elem_of_nil in Hc'.
      apply list_elem_of_singleton in Hc' as ->.
      unfold ready_of in Hr. destruct (conns st !! c) as [k|] eqn:Hk; [|done].
      exists (set_ready OPEN k). split; [|done].
      simpl. by rewrite list_lookup_alter_eq, Hk.
Qed.

Lemma listeners_ok_run d evs st : listeners_ok st → listeners_ok (run d st evs).
Proof.
  revert st. induction evs as [|e evs IH]; intros st H; [done|].
  simpl. apply IH. by apply listeners_ok_step.
Qed.

Lemma listeners_count d evs st :
  length (activatedListeners (run d st evs))
  = length (activatedListeners st) + count_opens d st evs.
Proof.
  revert st. induction evs as [|e evs IH]; intros st; simpl; [lia|].
  rewrite IH, listeners_step, length_app.
  destruct e as [c|c p|c failed| |i tabs|t|t]; simpl; try lia.
  destruct (ready_of c st) as [[]|]; simpl; lia.
Qed.

Lemma rec_of_activated_listener d t st c n :
  rec_of n (activated_listener d t st c) = rec_of n st.
Proof.
  unfold activated_listener. destruct (conns st !! c) as [k|] eqn:Hk; [|done].
  destruct (falsy t); [done|]. destruct (instructions (recording k)) as [a1 a2].
  destruct (d t a1); unfold rec_of, log_run, upd_conn; cbn [conns];
    rewrite list_lookup_alter;
    (case_decide as Hc; [subst n; by rewrite Hk|done]).
Qed.

Lemma activated_fold_sent d t l st :
  (∀ c, c ∈ l → is_Some (conns st !! c)) →
  sent (foldl (activated_listener d t) st l)
  = sent st ++ map (λ c, dispatch_run d t c (recording_at st c)) l.
Proof.
  revert st. induction l as [|c l IH]; intros st Hl; simpl; [by rewrite app_nil_r|].
  destruct (Hl c) as [k Hk]; [by left|].
  rewrite IH.
  - assert (Hc : recording_at st c = recording k).
    { unfold recording_at, rec_of. by rewrite Hk. }
    rewrite Hc.
    assert (Hext : ∀ c', recording_at (activated_listener d t st c) c'
                         = recording_at st c').
    { intros c'. unfold recording_at. by rewrite rec_of_activated_listener. }
    rewrite (map_ext _ _ (λ c', f_equal (dispatch_run d t c') (Hext c'))).
    rewrite (activated_listener_eq d t st c k Hk). simpl.
    rewrite <- app_assoc. by destruct (falsy t).
  - intros c' Hc'. apply lookup_lt_is_Some.
    rewrite conns_length_activated_listener. apply lookup_lt_is_Some.
    apply Hl. by right.
Qed.

(** Connection 0 received ["start"] and closed; connection 1 is open and
    IDLE.  One focus event runs both listeners: the stale one activates the
    tab, the current one deactivates it. *)
Example stale_listener_disagrees :
  let st := run all_delivered init
              [WsOpen 0; WsMessage 0 (Text "start"); WsClose 0 true; TimerFired; WsOpen 1] in
  session st = Some false ∧
  activatedListeners st = [0; 1] ∧
  sent (step all_delivered st (TabActivated 5))
  = [mkRun 0 [(5%Z, activateInspector); (5%Z, activateNotification)] Fulfilled;
     mkRun 1 [(5%Z, deactivateInspector); (5%Z, deactivateNotification)] Fulfilled].
Proof. repeat split. Qed.

(** C10: at every reachable state the agent holds one [onActivated]
    listener per socket opened so far, all distinct, none removed; a
    tab-focus event runs every one of them, in registration order, and the
    run of listener [c] sends what the [recording] flag of connection [c]
    selects. *)
Theorem listeners_accumulate d evs t :
  let st := run d init evs in
  length (activatedListeners st) = count_opens d init evs ∧
  NoDup (activatedListeners st) ∧
  sent (step d st (TabActivated t))
  = sent st ++ map (λ c, dispatch_run d t c (recording_at st c)) (activatedListeners st).
Proof.
  intros st. pose proof (listeners_ok_run d evs init listeners_ok_init) as [Hnd Hall].
  split; [|split; [done|]].
  - unfold st. by rewrite listeners_count.
  - simpl. apply activated_fold_sent. intros c Hc.
    destruct (Hall c Hc) as (k & Hk & _). by exists k.
Qed.

(** ** The socket life cycle *)

Lemma readys_removed_listener t st c :
  ready <$> conns (removed_listener t st c) = ready <$> conns st.
Proof. simpl. apply readys_set_tabStates. Qed.

Lemma timers_removed_listener t st c : timers (removed_listener t st c) = timers st.
Proof. done. Qed.

Lemma sockets_step_removed d st t :
  ready <$> conns (step d st (TabRemoved t)) = ready <$> conns st ∧
  timers (step d st (TabRemoved t)) = timers st.
Proof.
  simpl. apply (foldl_preserves
    (λ s, ready <$> conns s = ready <$> conns st ∧ timers s = timers st)); [|done].
  intros x b [<- <-]. split; [apply readys_removed_listener|done].
Qed.

Lemma sockets_step_other d st e :
  match e with WsMessage _ _ | QueryDone _ _ | TabActivated _ => True | _ => False end →
  ready <$> conns (step d st e) = ready <$> conns st ∧
  timers (step d st e) = timers st.
Proof.
  intros He. pose proof (view_step_other d st e He) as Hview.
  split; [exact (f_equal (λ v, v.1.1) Hview)|exact (f_equal snd Hview)].
Qed.

Lemma sockets_ok_step d st e :
  sockets_ok (ready <$> conns st) (timers st) →
  sockets_ok (ready <$> conns (step d st e)) (timers (step d st e)).
Proof.
  intros Hv.
  destruct e as [c|c p|c failed| |i tabs|t|t].
  - simpl step. unfold ready_of. rewrite <- list_lookup_fmap.
    destruct ((ready <$> conns st) !! c) as [r0|] eqn:Hc; [|done].
    destruct r0; try done. simpl. rewrite readys_set_ready.
    destruct Hv as [(Ht & pre & r & Hrs & Hpre & Hr)|(_ & _ & Hall)].
    + rewrite Hrs in Hc.
      destruct (closed_prefix_lookup pre r c CONNECTING Hpre Hc) as [-> <-]; [done|].
      left. split; [done|]. exists pre, OPEN. rewrite Hrs, insert_snoc. auto.
    + by pose proof (proj1 (Forall_lookup _ _) Hall c _ Hc).
  - by destruct (sockets_step_other d st (WsMessage c p) I) as [-> ->].
  - simpl step. unfold ready_of. rewrite <- list_lookup_fmap.
    destruct ((ready <$> conns st) !! c) as [r0|] eqn:Hc; [|done].
    assert (Hclose : r0 ≠ CLOSED →
              sockets_ok (ready <$> conns (onclose c (upd_conn c (set_ready CLOSED) st)))
                         (timers (onclose c (upd_conn c (set_ready CLOSED) st)))).
    { intros Hr0. simpl. rewrite readys_set_ready.
      destruct Hv as [(Ht & pre & r & Hrs & Hpre & Hr)|(_ & _ & Hall)].
      - rewrite Hrs in Hc.
        destruct (closed_prefix_lookup pre r c r0 Hpre Hc) as [-> ->]; [done|].
        right. rewrite Ht, Hrs, insert_snoc. split; [done|].
        split; [by destruct pre|].
        apply Forall_app. split; [done|]. by constructor.
      - destruct Hr0. by apply (proj1 (Forall_lookup _ _) Hall c _ Hc). }
    destruct r0; try done; rewrite closed_task_eq; by apply Hclose.
  - simpl step. destruct (timers st) as [|n] eqn:Hn; [by rewrite Hn|].
    destruct Hv as [(Ht & _)|(Ht & _ & Hall)]; [done|].
    injection Ht as ->. simpl. left. split; [done|].
    exists (ready <$> conns st), CONNECTING. rewrite fmap_app. auto.
  - by destruct (sockets_step_other d st (QueryDone i tabs) I) as [-> ->].
  - by destruct (sockets_step_other d st (TabActivated t) I) as [-> ->].
  - by destruct (sockets_step_removed d st t) as [-> ->].
Qed.

Lemma sockets_ok_run d evs st :
  sockets_ok (ready <$> conns st) (timers st) →
  sockets_ok (ready <$> conns (run d st evs)) (timers (run d st evs)).
Proof.
  revert st. induction evs as [|e evs IH]; intros st H; [done|].
  simpl. apply IH. by apply sockets_ok_step.
Qed.

Lemma sockets_ok_init : sockets_ok (ready <$> conns init) (timers init).
Proof. left. split; [done|]. exists [], CONNECTING. simpl. auto. Qed.

Lemma all_closed_lookup (rs : list ReadyState) i :
  Forall (λ x, x = CLOSED) rs → i < length rs → rs !! i = Some CLOSED.
Proof.
  intros Hall Hi. destruct (lookup_lt_is_Some_2 rs i Hi) as [x Hx].
  rewrite Hx. f_equal. by apply (proj1 (Forall_lookup _ _) Hall i).
Qed.

(** X1: At every reachable state at most one socket is not closed, and it is
    the one made last; a reconnect is pending exactly while that last socket
    is closed, and never more than one. *)
Theorem one_live_socket d evs :
  let st := run d init evs in
  timers st ≤ 1 ∧
  (∀ i, S i < length (conns st) → ready_of i st = Some CLOSED) ∧
  (timers st = 1 ↔ ready <$> last (conns st) = Some CLOSED).
Proof.
  intros st. pose proof (sockets_ok_run d evs init sockets_ok_init) as Hv.
  fold st in Hv. unfold ready_of. rewrite <- fmap_last.
  assert (Hlk : ∀ i, ready <$> conns st !! i = (ready <$> conns st) !! i)
    by (intros; by rewrite list_lookup_fmap).
  rewrite <- (length_fmap ready (conns st)).
  destruct Hv as [(Ht & pre & r & Hrs & Hpre & Hr)|(Ht & Hne & Hall)]; rewrite Ht.
  - split; [lia|]. split.
    + intros i Hi. rewrite Hlk. rewrite Hrs in *.
      rewrite length_app in Hi. simpl in Hi.
      rewrite lookup_app_l by lia. apply all_closed_lookup; [done|lia].
    + rewrite Hrs, last_snoc. split; [done|]. intros [= ->]. by destruct Hr.
  - split; [lia|]. split.
    + intros i Hi. rewrite Hlk. apply all_closed_lookup; [done|lia].
    + split; [|done]. intros _. rewrite last_lookup.
      apply all_closed_lookup; [done|].
      destruct (ready <$> conns st); [done|simpl; lia].
Qed.

(** X2: Every close is answered by exactly one [connect]: the connections made
    so far, plus the reconnect still pending, are one more than the sockets
    that have closed. *)
Theorem one_reconnect_per_close d evs :
  let st := run d init evs in
  length (conns st) + timers st = S (closed_sockets st).
Proof.
  intros st. pose proof (sockets_ok_run d evs init sockets_ok_init) as Hv.
  fold st in Hv. unfold closed_sockets.
  assert (Hlen : length (conns st) = length (ready <$> conns st))
    by by rewrite length_fmap.
  rewrite Hlen.
  assert (Hfilter : ∀ rs : list ReadyState,
            Forall (λ x, x = CLOSED) rs → filter (λ r, r = CLOSED) rs = rs).
  { intros rs Hrs. induction Hrs as [|x rs Hx Hrs IH]; [done|].
    rewrite filter_cons_True by done. by rewrite IH. }
  destruct Hv as [(-> & pre & r & -> & Hpre & Hr)|(-> & Hne & Hall)].
  - rewrite filter_app, (Hfilter pre Hpre), !length_app.
    rewrite filter_cons_False by (by destruct Hr as [-> | ->]).
    simpl. lia.
  - rewrite (Hfilter _ Hall). lia.
Qed.

Lemma badge_tracks_link_without_removal_witness :
  badge (run all_delivered init
           [WsOpen 0; TabActivated 3; WsClose 0 false; TimerFired; WsOpen 1])
  = Some "ON"
  ↔ link_open (run all_delivered init
                 [WsOpen 0; TabActivated 3; WsClose 0 false; TimerFired; WsOpen 1]).
Proof.
  apply (badge_tracks_link_without_removal all_delivered
           [WsOpen 0; TabActivated 3; WsClose 0 false; TimerFired; WsOpen 1]).
  reflexivity.
Defined.

(** ** The query callback *)

Lemma ready_of_onmessage c p st n : ready_of n (onmessage c p st) = ready_of n st.
Proof.
  unfold ready_of, onmessage; simpl. rewrite list_lookup_alter.
  case_decide as Hc; [|done]. subst n. by destruct (conns st !! c).
Qed.

Lemma run_cons d st e evs : run d st (e :: evs) = run d (step d st e) evs.
Proof. done. Qed.

Lemma run_nil d st : run d st [] = st.
Proof. done. Qed.

Lemma step_message_open d st c p :
  ready_of c st = Some OPEN → step d st (WsMessage c p) = onmessage c p st.
Proof. intros Hr. simpl. by rewrite Hr. Qed.

Lemma step_query d st i c tabs :
  queries st !! i = Some c →
  is_Some (conns st !! c) →
  step d st (QueryDone i tabs)
  = log_run (mkRun c (query_loop (recording_at st c) tabs) Fulfilled)
      (set_queries (delete i (queries st)) st).
Proof.
  intros Hi [k Hk]. simpl. rewrite Hi. unfold query_callback; simpl.
  unfold recording_at, rec_of. by rewrite Hk.
Qed.

(** X4: Two frames arrive on the open socket before the tabs query of the first
    is answered: both callbacks read [recording] when they run, so both
    reconciliations issue the pair of the second frame's command. *)
Theorem late_answer_uses_latest_frame d st c p1 p2 tabs1 tabs2 :
  ready_of c st = Some OPEN →
  let n := length (queries st) in
  let st' := run d st [WsMessage c p1; WsMessage c p2;
                       QueryDone n tabs1; QueryDone n tabs2] in
  sent st' = sent st ++ [mkRun c (query_loop (is_start p2) tabs1) Fulfilled;
                         mkRun c (query_loop (is_start p2) tabs2) Fulfilled] ∧
  queries st' = queries st.
Proof.
  intros Hr n st'. unfold st'. subst n. rewrite !run_cons, run_nil.
  rewrite (step_message_open d st c p1 Hr).
  rewrite (step_message_open d _ c p2) by by rewrite ready_of_onmessage.
  set (st2 := onmessage c p2 (onmessage c p1 st)).
  assert (Hc : is_Some (conns st !! c)).
  { unfold ready_of in Hr. by destruct (conns st !! c). }
  assert (Hrec : recording_at st2 c = is_start p2).
  { unfold recording_at, st2. rewrite rec_of_onmessage, decide_True by done.
    rewrite rec_of_onmessage, decide_True by done.
    unfold rec_of. by destruct Hc as [k ->]. }
  assert (Hq : queries st2 = queries st ++ [c; c]).
  { unfold st2; simpl. by rewrite <- app_assoc. }
  assert (Hc2 : is_Some (conns st2 !! c)).
  { apply lookup_lt_is_Some. unfold st2; simpl. rewrite !length_alter.
    by apply lookup_lt_is_Some. }
  rewrite (step_query d st2 (length (queries st)) c tabs1); [|by rewrite Hq, list_lookup_middle|done].
  rewrite Hq, (delete_middle (queries st) [c] c), Hrec.
  rewrite (step_query d _ (length (queries st)) c tabs2); [|by simpl; rewrite list_lookup_middle|done].
  simpl. rewrite delete_snoc, <- app_assoc. split; [|done].
  change (recording_at (log_run _ (set_queries _ st2)) c) with (recording_at st2 c).
  by rewrite Hrec.
Qed.

Lemma late_answer_uses_latest_frame_witness :
  sent (run all_delivered (run all_delivered init [WsOpen 0])
          [WsMessage 0 (Text "start"); WsMessage 0 (Text "stop");
           QueryDone 0 [Some 4%Z]; QueryDone 0 [Some 4%Z]])
  = [mkRun 0 [(4%Z, deactivateInspector); (4%Z, deactivateNotification)] Fulfilled;
     mkRun 0 [(4%Z, deactivateInspector); (4%Z, deactivateNotification)] Fulfilled].
Proof.
  refine (proj1 (late_answer_uses_latest_frame all_delivered
            (run all_delivered init [WsOpen 0]) 0 (Text "start") (Text "stop")
            [Some 4%Z] [Some 4%Z] _)).
  reflexivity.
Defined.

(** X5: The loop of the query callback sends, to each tab in turn, the first
    and then the second instruction of the pair; at the first tab without
    an id (or with id 0) it returns, so no later tab of the answer is sent
    anything. *)
Theorem query_loop_stops_at_missing_id rec pre rest :
  Forall (λ t, falsy t = false) pre →
  match rest with [] => True | t :: _ => t = None ∨ t = Some 0%Z end →
  query_loop rec ((Some <$> pre) ++ rest)
  = flat_map (λ t, [(t, fst (instructions rec)); (t, snd (instructions rec))]) pre.
Proof.
  intros Hpre Hrest. induction Hpre as [|t pre Ht Hpre IH].
  - destruct rest as [|r rest]; [done|]. by destruct Hrest as [-> | ->].
  - rewrite fmap_cons. simpl. rewrite Ht. by rewrite <- IH.
Qed.

Lemma query_loop_stops_at_missing_id_witness :
  query_loop true ((Some <$> [7%Z; 8%Z]) ++ [None; Some 9%Z])
  = [(7%Z, activateInspector); (7%Z, activateNotification);
     (8%Z, activateInspector); (8%Z, activateNotification)].
Proof.
  refine (query_loop_stops_at_missing_id true [7%Z; 8%Z] [None; Some 9%Z] _ _).
  - repeat constructor.
  - by left.
Defined.

(** ** A closed connection *)

Lemma closed_frozen_step d st e c b :
  ready_of c st = Some CLOSED → rec_of c st = Some b →
  ready_of c (step d st e) = Some CLOSED ∧ rec_of c (step d st e) = Some b.
Proof.
  intros Hr Hb.
  assert (Hk : ∃ k, conns st !! c = Some k ∧ ready k = CLOSED ∧ recording k = b).
  { unfold ready_of, rec_of in *. destruct (conns st !! c) as [k|]; [|done].
    simpl in *. exists k. split; [done|]. split; congruence. }
  destruct Hk as (k & Hk & Hkr & Hkb).
  assert (Hkeep : ∀ s, (∃ k', conns s !! c = Some k' ∧ ready k' = CLOSED
                              ∧ recording k' = b) →
            ready_of c s = Some CLOSED ∧ rec_of c s = Some b).
  { intros s (k' & Hk' & <- & <-). unfold ready_of, rec_of. by rewrite Hk'. }
  assert (Hupd : ∀ c' f s,
            (c' = c → ∀ x, ready x = CLOSED → recording x = b →
                            ready (f x) = CLOSED ∧ recording (f x) = b) →
            (∃ k', conns s !! c = Some k' ∧ ready k' = CLOSED ∧ recording k' = b) →
            ∃ k', conns (upd_conn c' f s) !! c = Some k' ∧ ready k' = CLOSED
                  ∧ recording k' = b).
  { intros c' f s Hf (k' & Hk' & Hr' & Hb'). simpl. rewrite list_lookup_alter.
    case_decide as Hc; [|by exists k'].
    subst c'. rewrite Hk'. simpl. destruct (Hf eq_refl k' Hr' Hb') as [? ?].
    by eexists. }
  apply Hkeep.
  destruct e as [c'|c' p|c' failed| |i tabs|t|t]; simpl step.
  - destruct (decide (c' = c)) as [->|Hne].
    + rewrite Hr. by exists k.
    + destruct (ready_of c' st) as [[]|]; try by exists k.
      apply (Hupd c' (set_ready OPEN) st); [done|by exists k].
  - destruct (decide (c' = c)) as [->|Hne].
    + rewrite Hr. by exists k.
    + destruct (ready_of c' st) as [[]|]; try by exists k.
      unfold onmessage; simpl. rewrite list_lookup_alter_ne by done. by exists k.
  - destruct (decide (c' = c)) as [->|Hne].
    + rewrite Hr. by exists k.
    + destruct (ready_of c' st) as [[]|]; try (by exists k); rewrite closed_task_eq;
        (apply (Hupd c' (set_ready CLOSED) st); [done|by exists k]).
  - destruct (timers st); [by exists k|]. simpl.
    exists k. split; [by apply lookup_app_l_Some|done].
  - destruct (queries st !! i) as [c'|]; [|by exists k].
    unfold query_callback; simpl. destruct (conns st !! c'); by exists k.
  - apply (foldl_preserves (λ s, ∃ k', conns s !! c = Some k' ∧ ready k' = CLOSED
                                       ∧ recording k' = b)); [|by exists k].
    intros s c' Hs. unfold activated_listener.
    destruct (conns s !! c') as [kc|]; [|done].
    destruct (falsy t); [done|]. destruct (instructions (recording kc)) as [a1 a2].
    destruct (d t a1);
      apply (Hupd c' (set_tabStates (insert t "ON")) s); done.
  - apply (foldl_preserves (λ s, ∃ k', conns s !! c = Some k' ∧ ready k' = CLOSED
                                       ∧ recording k' = b)); [|by exists k].
    intros s c' Hs. unfold removed_listener.
    apply (Hupd c' (set_tabStates (delete t)) s); done.
Qed.

(** X8: A connection whose socket has closed is frozen: whatever happens next,
    its socket stays closed and the [recording] flag its listeners read
    keeps the value it had at the close. *)
Theorem closed_connection_is_frozen d st evs c b :
  ready_of c st = Some CLOSED → rec_of c st = Some b →
  ready_of c (run d st evs) = Some CLOSED ∧ rec_of c (run d st evs) = Some b.
Proof.
  revert st. induction evs as [|e evs IH]; intros st Hr Hb; [done|].
  simpl. destruct (closed_frozen_step d st e c b Hr Hb) as [Hr' Hb']. by apply IH.
Qed.

Lemma closed_connection_is_frozen_witness :
  rec_of 0 (run all_delivered
              (run all_delivered init
                 [WsOpen 0; WsMessage 0 (Text "start"); WsClose 0 true])
              [TimerFired; WsOpen 1; WsMessage 0 (Text "stop");
               WsMessage 1 (Text "stop"); TabActivated 2])
  = Some true.
Proof.
  refine (proj2 (closed_connection_is_frozen all_delivered
            (run all_delivered init
               [WsOpen 0; WsMessage 0 (Text "start"); WsClose 0 true])
            [TimerFired; WsOpen 1; WsMessage 0 (Text "stop");
             WsMessage 1 (Text "stop"); TabActivated 2] 0 true _ _)); reflexivity.
Defined.

(** ** Focus and removal in the registries *)

Lemma removed_listeners_activated_listener d t st c :
  removedListeners (activated_listener d t st c) = removedListeners st.
Proof.
  unfold activated_listener. destruct (conns st !! c) as [k|]; [|done].
  destruct (falsy t); [done|]. destruct (instructions (recording k)) as [a1 a2].
  by destruct (d t a1).
Qed.

Lemma removed_listeners_fold t l st :
  removedListeners (foldl (removed_listener t) st l) = removedListeners st.
Proof. by apply (foldl_preserves (λ s, removedListeners s = removedListeners st)). Qed.

(** Both listeners are registered by the same [ws.onopen]. *)
Lemma removed_listeners_step d st e :
  removedListeners st = activatedListeners st →
  removedListeners (step d st e) = activatedListeners (step d st e).
Proof.
  intros Heq. rewrite listeners_step.
  destruct e as [c|c p|c failed| |i tabs|t|t]; simpl step; simpl opens_now;
    rewrite ?app_nil_r.
  - destruct (ready_of c st) as [[]|]; rewrite ?app_nil_r; try done.
    simpl. by rewrite Heq.
  - by destruct (ready_of c st) as [[]|].
  - destruct (ready_of c st) as [[]|]; by rewrite ?closed_task_eq.
  - by destruct (timers st).
  - destruct (queries st !! i) as [c|]; [|done].
    unfold query_callback; simpl. by destruct (conns st !! c).
  - rewrite <- Heq.
    apply (foldl_preserves (λ s, removedListeners s = removedListeners st)); [|done].
    intros x b <-. apply removed_listeners_activated_listener.
  - rewrite <- Heq. apply removed_listeners_fold.
Qed.

Lemma removed_listeners_run d evs st :
  removedListeners st = activatedListeners st →
  removedListeners (run d st evs) = activatedListeners (run d st evs).
Proof.
  revert st. induction evs as [|e evs IH]; intros st H; [done|].
  simpl. apply IH. by apply removed_listeners_step.
Qed.

Lemma registry_of_upd_conn c f st n :
  is_Some (conns st !! c) →
  registry_of n (upd_conn c (set_tabStates f) st)
  = if decide (c = n) then f (registry_of n st) else registry_of n st.
Proof.
  intros [k Hk]. unfold registry_of, upd_conn; simpl. rewrite list_lookup_alter.
  case_decide as Hc; [|done]. subst n. by rewrite Hk.
Qed.

Lemma registry_of_activated_listener d t st c n :
  falsy t = false → is_Some (conns st !! c) →
  registry_of n (activated_listener d t st c)
  = if decide (c = n) then <[t := "ON"]> (registry_of n st) else registry_of n st.
Proof.
  intros Ht [k Hk]. rewrite (activated_listener_eq d t st c k Hk), Ht.
  by apply (registry_of_upd_conn c (insert t "ON") st n).
Qed.

Lemma registry_of_removed_listener t st c n :
  registry_of n (removed_listener t st c)
  = if decide (c = n) then delete t (registry_of n st) else registry_of n st.
Proof.
  unfold removed_listener, registry_of; simpl. rewrite list_lookup_alter.
  case_decide as Hc; [|done]. subst n.
  destruct (conns st !! c) as [k|]; simpl; [done|]. by rewrite delete_empty.
Qed.

Lemma activated_fold_registry d t l st n :
  falsy t = false →
  (∀ c, c ∈ l → is_Some (conns st !! c)) →
  registry_of n (foldl (activated_listener d t) st l)
  = if decide (n ∈ l) then <[t := "ON"]> (registry_of n st) else registry_of n st.
Proof.
  intros Ht. revert st. induction l as [|a l IH]; intros st Hl; cbn [foldl].
  - by rewrite decide_False by apply not_elem_of_nil.
  - rewrite IH.
    + rewrite registry_of_activated_listener by (done || apply Hl; by left).
      destruct (decide (n ∈ l)) as [Hn|Hn], (decide (a = n)) as [->|Hne].
      * rewrite decide_True by by left. by rewrite insert_insert_eq.
      * by rewrite decide_True by by right.
      * by rewrite decide_True by by left.
      * rewrite decide_False; [done|]. intros Hin.
        apply elem_of_cons in Hin as [->|]; done.
    + intros c Hc. apply lookup_lt_is_Some.
      rewrite conns_length_activated_listener. apply lookup_lt_is_Some.
      apply Hl. by right.
Qed.

Lemma removed_fold_registry t l st n :
  registry_of n (foldl (removed_listener t) st l)
  = if decide (n ∈ l) then delete t (registry_of n st) else registry_of n st.
Proof.
  revert st. induction l as [|a l IH]; intros st; cbn [foldl].
  - by rewrite decide_False by apply not_elem_of_nil.
  - rewrite IH, registry_of_removed_listener.
    destruct (decide (n ∈ l)) as [Hn|Hn], (decide (a = n)) as [->|Hne].
    + rewrite decide_True by by left. by rewrite delete_delete_eq.
    + by rewrite decide_True by by right.
    + by rewrite decide_True by by left.
    + rewrite decide_False; [done|]. intros Hin.
      apply elem_of_cons in Hin as [->|]; done.
Qed.

Lemma run_snoc d st evs e : run d st (evs ++ [e]) = step d (run d st evs) e.
Proof. unfold run. by rewrite foldl_snoc. Qed.

(** X6: At every reachable state, focusing tab [t] writes [t ↦ 'ON'] into the
    registry of every connection that has opened, and closing tab [t]
    deletes [t] from each of them; the registries of other connections and
    all other keys are left as they are.  Focusing a tab and then closing it
    leaves each such registry without the tab. *)
Theorem registry_follows_focus_and_removal d evs c t :
  let st := run d init evs in
  falsy t = false →
  registry_of c (step d st (TabActivated t))
  = (if decide (c ∈ activatedListeners st) then <[t := "ON"]> (registry_of c st)
     else registry_of c st) ∧
  registry_of c (step d st (TabRemoved t))
  = (if decide (c ∈ activatedListeners st) then delete t (registry_of c st)
     else registry_of c st) ∧
  (c ∈ activatedListeners st →
   registry_of c (run d st [TabActivated t; TabRemoved t]) = delete t (registry_of c st)).
Proof.
  intros st Ht.
  assert (Hall : ∀ evs' c', c' ∈ activatedListeners (run d init evs') →
                            is_Some (conns (run d init evs') !! c')).
  { intros evs' c' Hc'.
    destruct (listeners_ok_run d evs' init listeners_ok_init) as [_ Hex].
    destruct (Hex c' Hc') as (k & Hk & _). by exists k. }
  assert (Hrem : ∀ evs', removedListeners (run d init evs')
                        = activatedListeners (run d init evs')).
  { intros evs'. by apply removed_listeners_run. }
  assert (Hfocus : ∀ evs' c',
            registry_of c' (step d (run d init evs') (TabActivated t))
            = if decide (c' ∈ activatedListeners (run d init evs'))
              then <[t := "ON"]> (registry_of c' (run d init evs'))
              else registry_of c' (run d init evs')).
  { intros evs' c'. simpl. apply activated_fold_registry; [done|]. apply Hall. }
  assert (Hgone : ∀ evs' c',
            registry_of c' (step d (run d init evs') (TabRemoved t))
            = if decide (c' ∈ activatedListeners (run d init evs'))
              then delete t (registry_of c' (run d init evs'))
              else registry_of c' (run d init evs')).
  { intros evs' c'. simpl. rewrite Hrem. apply removed_fold_registry. }
  split; [apply Hfocus|]. split; [apply Hgone|].
  intros Hc. rewrite run_cons, run_cons, run_nil. unfold st.
  rewrite <- run_snoc, Hgone, run_snoc, listeners_step, app_nil_r.
  rewrite decide_True by done. rewrite Hfocus, decide_True by done.
  apply delete_insert_eq.
Qed.

Lemma registry_follows_focus_and_removal_witness :
  registry_of 0 (run all_delivered
                   (run all_delivered init [WsOpen 0; TabActivated 1])
                   [TabActivated 2; TabRemoved 2])
  = delete 2%Z (registry_of 0 (run all_delivered init [WsOpen 0; TabActivated 1])).
Proof.
  refine (proj2 (proj2 (registry_follows_focus_and_removal all_delivered
            [WsOpen 0; TabActivated 1] 0 2 _)) _).
  - reflexivity.
  - by apply list_elem_of_singleton.
Defined.

Lemma removed_listener_fix t st c :
  badge st = Some "OFF" →
  (∀ k, conns st !! c = Some k → tabStates k !! t = None) →
  removed_listener t st c = st.
Proof.
  intros Hb Hk. destruct st as [cs aL rL b ti q se]. simpl in *. subst b.
  unfold removed_listener, setBadgeText, upd_conn; simpl. f_equal.
  rewrite (list_alter_ext (set_tabStates (delete t)) (λ k, k) cs cs c); [|
    |done].
  - by apply list_alter_id.
  - intros [r rec m] Hx. unfold set_tabStates; simpl. f_equal.
    apply delete_id. apply (Hk _ Hx).
Qed.

Lemma removed_fold_fix t l st :
  badge st = Some "OFF" →
  (∀ c k, c ∈ l → conns st !! c = Some k → tabStates k !! t = None) →
  foldl (removed_listener t) st l = st.
Proof.
  intros Hb. induction l as [|a l IH]; intros Hl; [done|].
  simpl. rewrite removed_listener_fix; [|done|].
  - apply IH. intros c k Hc. apply Hl. by right.
  - intros k. apply Hl. by left.
Qed.

Lemma removed_listener_lacks t st c a :
  (∀ k, conns st !! a = Some k → tabStates k !! t = None) →
  ∀ k, conns (removed_listener t st c) !! a = Some k → tabStates k !! t = None.
Proof.
  intros Ha k. simpl. rewrite list_lookup_alter. case_decide as Hc.
  - subst a. destruct (conns st !! c) as [k0|]; [|done].
    intros [= <-]. simpl. apply lookup_delete_eq.
  - apply Ha.
Qed.

Lemma removed_fold_lacks t l st c :
  c ∈ l → ∀ k, conns (foldl (removed_listener t) st l) !! c = Some k →
  tabStates k !! t = None.
Proof.
  revert st. induction l as [|a l IH]; intros st Hc; [by apply elem_of_nil in Hc|].
  destruct (decide (c ∈ l)) as [Hin|Hnin]; [by apply IH|].
  apply elem_of_cons in Hc as [->|]; [|done]. simpl.
  apply (foldl_preserves
    (λ s, ∀ k, conns s !! a = Some k → tabStates k !! t = None)).
  - intros s b Hs. by apply removed_listener_lacks.
  - intros k. simpl. rewrite list_lookup_alter_eq.
    destruct (conns st !! a) as [k0|]; [|done]. intros [= <-]. simpl.
    apply lookup_delete_eq.
Qed.

Lemma removed_fold_badge t l st :
  l ≠ [] → badge (foldl (removed_listener t) st l) = Some "OFF".
Proof.
  intros Hl. destruct l as [|a l]; [done|]. simpl.
  by apply (foldl_preserves (λ s, badge s = Some "OFF")).
Qed.

(** X7: A tab-removed event for the same tab, delivered twice, leaves the agent
    exactly as the first delivery left it: deleting an absent key from a
    registry changes nothing and raises nothing. *)
Theorem tab_removed_twice d st t :
  step d (step d st (TabRemoved t)) (TabRemoved t) = step d st (TabRemoved t).
Proof.
  simpl. rewrite removed_listeners_fold.
  destruct (removedListeners st) as [|a l] eqn:Hl; [done|].
  apply removed_fold_fix.
  - by apply removed_fold_badge.
  - intros c k Hc. by apply removed_fold_lacks.
Qed.

(** ** What changes a registry *)

(** X9: Only tab events change a registry: opening, frames, closing,
    reconnecting and query answers leave the registry at every index as it
    was; in particular the connection made by a reconnect starts with an
    empty registry, so it knows none of the tabs focused before. *)
Theorem only_tab_events_change_registries d st e n :
  match e with TabActivated _ | TabRemoved _ => False | _ => True end →
  registry_of n (step d st e) = registry_of n st ∧
  (0 < timers st → registry_of (length (conns st)) (step d st TimerFired) = ∅).
Proof.
  intros He. split.
  - assert (Hupd : ∀ c f s, (∀ k, tabStates (f k) = tabStates k) →
              registry_of n (upd_conn c f s) = registry_of n s).
    { intros c f s Hf. unfold registry_of, upd_conn; simpl.
      rewrite list_lookup_alter. case_decide as Hc; [|done]. subst n.
      destruct (conns s !! c); simpl; [by rewrite Hf|done]. }
    destruct e as [c|c p|c failed| |i tabs|t|t]; try done; simpl step.
    + destruct (ready_of c st) as [[]|]; try done.
      by apply (Hupd c (set_ready OPEN) st).
    + destruct (ready_of c st) as [[]|]; try done.
      unfold registry_of, onmessage; simpl. rewrite list_lookup_alter.
      case_decide as Hc; [|done]. subst n. by destruct (conns st !! c).
    + destruct (ready_of c st) as [[]|]; try done; rewrite closed_task_eq;
        by apply (Hupd c (set_ready CLOSED) st).
    + destruct (timers st); [done|]. unfold registry_of; simpl.
      destruct (conns st !! n) as [k|] eqn:Hk.
      * by rewrite (lookup_app_l_Some _ _ _ _ Hk).
      * apply lookup_ge_None_1 in Hk.
        destruct (decide (n = length (conns st))) as [->|Hne].
        -- by rewrite list_lookup_middle.
        -- rewrite lookup_ge_None_2; [done|]. rewrite length_app. simpl. lia.
    + destruct (queries st !! i) as [c|]; [|done].
      unfold query_callback; simpl. by destruct (conns st !! c).
  - intros Ht. simpl. destruct (timers st); [lia|].
    unfold registry_of; simpl. by rewrite list_lookup_middle.
Qed.

Lemma only_tab_events_change_registries_witness :
  registry_of 0 (step all_delivered
                   (run all_delivered init [WsOpen 0; TabActivated 6])
                   (WsClose 0 true))
  = registry_of 0 (run all_delivered init [WsOpen 0; TabActivated 6]).
Proof.
  refine (proj1 (only_tab_events_change_registries all_delivered
            (run all_delivered init [WsOpen 0; TabActivated 6]) (WsClose 0 true) 0 _)).
  exact I.
Defined.

(** ** The shape of what is sent *)

Lemma well_paired_query_loop b tabs : well_paired b (query_loop b tabs).
Proof.
  induction tabs as [|[t|] tabs IH]; simpl; [done| |done].
  destruct (falsy t); [done|]. simpl. auto.
Qed.

Lemma well_paired_dispatch_run d t c b : well_paired b (run_msgs (dispatch_run d t c b)).
Proof.
  unfold dispatch_run. destruct (falsy t); [done|].
  destruct (instructions b) as [a1 a2] eqn:Hi.
  destruct (d t a1); simpl; rewrite ?Hi; auto.
Qed.

Lemma sent_step_well_paired d st e :
  ∃ new, sent (step d st e) = sent st ++ new ∧
         Forall (λ r, ∃ b, well_paired b (run_msgs r)) new.
Proof.
  assert (Hnone : ∀ s, sent s = sent st →
            ∃ new, sent s = sent st ++ new ∧
                   Forall (λ r, ∃ b, well_paired b (run_msgs r)) new).
  { intros s Hs. exists []. by rewrite app_nil_r. }
  destruct e as [c|c p|c failed| |i tabs|t|t]; simpl step.
  - apply Hnone. by destruct (ready_of c st) as [[]|].
  - apply Hnone. by destruct (ready_of c st) as [[]|].
  - apply Hnone. destruct (ready_of c st) as [[]|]; by rewrite ?closed_task_eq.
  - apply Hnone. by destruct (timers st).
  - destruct (queries st !! i) as [c|]; [|by apply Hnone].
    unfold query_callback; simpl. destruct (conns st !! c) as [k|]; [|by apply Hnone].
    simpl. eexists; split; [done|]. constructor; [|done].
    exists (recording k). apply well_paired_query_loop.
  - apply (foldl_preserves
      (λ s, ∃ new, sent s = sent st ++ new ∧
                   Forall (λ r, ∃ b, well_paired b (run_msgs r)) new));
      [|by apply Hnone].
    intros s c (new & Hs & Hnew).
    destruct (conns s !! c) as [k|] eqn:Hk.
    + rewrite (activated_listener_eq d t s c k Hk). simpl.
      exists (new ++ [dispatch_run d t c (recording k)]). split.
      * destruct (falsy t); simpl; by rewrite Hs, app_assoc.
      * apply Forall_app. split; [done|]. constructor; [|done].
        exists (recording k). apply well_paired_dispatch_run.
    + unfold activated_listener. rewrite Hk. by exists new.
  - apply Hnone.
    by apply (foldl_preserves (λ s, sent s = sent st)).
Qed.

(** X10: In every invocation the agent ever makes, the instructions come in
    pairs of one polarity: to each tab the inspector instruction and then
    the notification instruction of the same kind.  A notification is never
    sent without the inspector instruction to the same tab right before it,
    and activation and deactivation are never mixed in one invocation. *)
Theorem instructions_come_in_pairs d evs :
  Forall (λ r, ∃ b, well_paired b (run_msgs r)) (sent (run d init evs)).
Proof.
  assert (Hgen : ∀ st, Forall (λ r, ∃ b, well_paired b (run_msgs r)) (sent st) →
            Forall (λ r, ∃ b, well_paired b (run_msgs r)) (sent (run d st evs))).
  { induction evs as [|e evs IH]; intros st Hst; [done|].
    simpl. apply IH. destruct (sent_step_well_paired d st e) as (new & -> & Hnew).
    by apply Forall_app. }
  by apply Hgen.
Qed.

End AgentFacts.

(** * Facts about the control process *)

Module HubFacts.
Import Hub.

Lemma clients_step ws st e :
  clients (step ws st e)
  = clients st ++ match e with Connection => [length (sockets st)] | _ => [] end.
Proof. destruct e; simpl; by rewrite ?app_nil_r. Qed.

Lemma sockets_length_step ws st e :
  length (sockets (step ws st e))
  = length (sockets st) + match e with Connection => 1 | _ => 0 end.
Proof.
  destruct e; simpl; rewrite ?Nat.add_0_r; try done.
  - rewrite length_app. simpl. lia.
  - apply length_insert.
Qed.

(** [clients] lists every socket accepted so far, in order of acceptance. *)
Lemma clients_run ws evs st :
  clients st = seq 0 (length (sockets st)) →
  clients (run ws st evs) = seq 0 (length (sockets (run ws st evs))).
Proof.
  revert st. induction evs as [|e evs IH]; intros st H; [done|].
  simpl. apply IH. rewrite clients_step, sockets_length_step, H.
  destruct e; rewrite ?Nat.add_0_r, ?app_nil_r; try done.
  by rewrite seq_app.
Qed.





(** ** What the control process sends *)

Lemma send_each_calls ws socks cs data :
  Forall (λ c, call_data c = data ∧ call_link c ∈ cs) (send_each ws socks cs data).
Proof.
  induction cs as [|l cs IH]; simpl; [done|].
  destruct (ws l (is_open socks l) data).
  - constructor; [split; [done|by left]|].
    eapply Forall_impl; [exact IH|]. intros c [? ?]. split; [done|by right].
  - constructor; [split; [done|by left]|done].
Qed.

Lemma sockets_length_mono ws st e :
  length (sockets st) ≤ length (sockets (step ws st e)).
Proof. rewrite sockets_length_step. lia. Qed.

Lemma calls_step ws st e :
  calls (step ws st e)
  = calls st ++ match command_of e with
                | Some data => send_each ws (sockets st) (clients st) data
                | None => []
                end.
Proof. destruct e; simpl; by rewrite ?app_nil_r. Qed.

Lemma clients_step_seq ws st e :
  clients st = seq 0 (length (sockets st)) →
  clients (step ws st e) = seq 0 (length (sockets (step ws st e))).
Proof.
  intros H. rewrite clients_step, sockets_length_step, H.
  destruct e; rewrite ?Nat.add_0_r, ?app_nil_r; try done.
  by rewrite seq_app.
Qed.

Lemma calls_run_commands ws evs s :
  clients s = seq 0 (length (sockets s)) →
  Forall (λ c, (call_data c = "start" ∨ call_data c = "stop") ∧
               call_link c < length (sockets s)) (calls s) →
  Forall (λ c, (call_data c = "start" ∨ call_data c = "stop") ∧
               call_link c < length (sockets (run ws s evs)))
         (calls (run ws s evs)).
Proof.
  revert s. induction evs as [|e evs IH]; intros s Hcl Hs; [done|].
  simpl. apply IH; [by apply clients_step_seq|].
  rewrite calls_step. apply Forall_app. split.
  - eapply Forall_impl; [exact Hs|]. intros c [? ?]. split; [done|].
    pose proof (sockets_length_mono ws s e). lia.
  - destruct (command_of e) as [data|] eqn:He; [|done].
    eapply Forall_impl; [apply send_each_calls|].
    intros c [Hd Hl]. split.
    + destruct e; simpl in He; try done; injection He as <-; auto.
    + rewrite Hcl in Hl. apply elem_of_seq in Hl.
      pose proof (sockets_length_mono ws s e). lia.
Qed.

Lemma calls_run_quiet ws evs s :
  Forall (λ e, command_of e = None) evs → calls (run ws s evs) = calls s.
Proof.
  revert s. induction evs as [|e evs IH]; intros s Hevs; [done|].
  apply Forall_cons in Hevs as [He Hevs]. simpl.
  rewrite (IH _ Hevs), calls_step, He. apply app_nil_r.
Qed.

(** X11: The control process sends nothing but the two commands, and only to
    sockets it has accepted: every [send] call it ever makes carries
    ["start"] or ["stop"]; client messages, errors, closes and new
    connections cause no call. *)
Theorem hub_sends_only_commands ws evs :
  let st := run ws init evs in
  Forall (λ c, (call_data c = "start" ∨ call_data c = "stop") ∧
               call_link c < length (sockets st)) (calls st) ∧
  (Forall (λ e, command_of e = None) evs → calls st = []).
Proof.
  intros st. split.
  - by apply calls_run_commands.
  - intros Hq. unfold st. by rewrite calls_run_quiet.
Qed.

(** ** The order of frames on one link *)

Lemma frames_to_app l cs1 cs2 :
  frames_to l (cs1 ++ cs2) = frames_to l cs1 ++ frames_to l cs2.
Proof. unfold frames_to. by rewrite filter_app, fmap_app. Qed.

Lemma send_each_returns ws socks cs data :
  (∀ l o d, ws l o d = Returned) →
  send_each ws socks cs data = map (λ c, mkCall c data Returned) cs.
Proof.
  intros Hws. induction cs as [|l cs IH]; simpl; [done|]. by rewrite Hws, IH.
Qed.

Lemma frames_to_broadcast l data n :
  frames_to l (map (λ c, mkCall c data Returned) (seq 0 n))
  = if decide (l < n) then [data] else [].
Proof.
  induction n as [|n IH]; [done|].
  rewrite seq_S, map_app, frames_to_app, IH. simpl.
  unfold frames_to. rewrite filter_cons, filter_nil. simpl.
  destruct (decide (l < n)), (decide (n = l)), (decide (l < S n)); simpl;
    try done; lia.
Qed.



Lemma frames_to_run ws evs s l :
  (∀ l o d, ws l o d = Returned) →
  clients s = seq 0 (length (sockets s)) →
  l < length (sockets s) →
  frames_to l (calls (run ws s evs)) = frames_to l (calls s) ++ omap command_of evs.
Proof.
  intros Hws. revert s. induction evs as [|e evs IH]; intros s Hcl Hl.
  - simpl. by rewrite app_nil_r.
  - simpl. rewrite IH.
    + rewrite calls_step, frames_to_app, <- app_assoc. f_equal.
      destruct (command_of e) as [data|]; [|done].
      rewrite (send_each_returns ws _ _ _ Hws), Hcl, frames_to_broadcast.
      by rewrite decide_True.
    + by apply clients_step_seq.
    + pose proof (sockets_length_mono ws s e). lia.
Qed.

(** X12: If [send] never throws, a link that is already accepted is sent, from
    then on, exactly the commands of the operator's actions, one frame per
    action and in the order of the actions, whatever else happens at the
    control process in between. *)
Theorem link_receives_commands_in_order ws evs0 evs l :
  let st := run ws init evs0 in
  (∀ l o d, ws l o d = Returned) →
  l < length (sockets st) →
  frames_to l (calls (run ws st evs)) = frames_to l (calls st) ++ omap command_of evs.
Proof.
  intros st Hws Hl. apply frames_to_run; [done| |done].
  by apply clients_run.
Qed.

Lemma link_receives_commands_in_order_witness :
  frames_to 0 (calls (run always_returns
                        (run always_returns init [Connection; IpcStart])
                        [IpcStop; Connection; Close 0; Message 1 "hello"; IpcStart]))
  = frames_to 0 (calls (run always_returns init [Connection; IpcStart]))
      ++ omap command_of [IpcStop; Connection; Close 0; Message 1 "hello"; IpcStart].
Proof.
  refine (link_receives_commands_in_order always_returns [Connection; IpcStart]
            [IpcStop; Connection; Close 0; Message 1 "hello"; IpcStart] 0 _ _).
  - reflexivity.
  - simpl. lia.
Defined.

End HubFacts.

(** * Facts about the content script *)

Module ContentFacts.
Import Content.

Lemma consistent_step st e : consistent st → consistent (step st e).
Proof.
  intros (Hi & Hr & Hc). destruct st as [ins cr im rs cs con]. simpl in *.
  assert (Hcall : ∀ i, ins = Some i → Forall (λ c, target c < cr) (cs ++ [Activate i])
                                      ∧ Forall (λ c, target c < cr) (cs ++ [Deactivate i])).
  { intros i ->. destruct cr as [|n]; [done|]. injection Hi as ->.
    split; (apply Forall_app; split; [done|]; constructor; [simpl; lia|done]). }
  destruct e as [action| | |]; simpl.
  - unfold onMessage. repeat case_bool_decide; try done.
    + unfold activateInspector; simpl. destruct ins as [i|]; [|done].
      split; [done|]. split; [done|]. by apply (Hcall i).
    + unfold deactivateInspector; simpl. destruct ins as [i|]; [|done].
      split; [done|]. split; [done|]. by apply (Hcall i).
  - destruct im; [done|]. split; [done|]. split; [simpl; lia|]. simpl.
    eapply Forall_impl; [exact Hc|]. simpl. intros c ?. lia.
  - by destruct im.
  - destruct rs as [|n]; [done|]. unfold resumed; simpl.
    destruct ins as [i|]; simpl.
    + split; [done|]. split; [intros _; apply Hr; lia|]. by apply (Hcall i).
    + specialize (Hr ltac:(lia)). destruct cr; [lia|done].
Qed.

Lemma consistent_run evs st : consistent st → consistent (run st evs).
Proof.
  revert st. induction evs as [|e evs IH]; intros st H; [done|].
  simpl. apply IH. by apply consistent_step.
Qed.

Lemma consistent_init : consistent init.
Proof. repeat split; simpl; [lia|done]. Qed.

(** X14: At every reachable state of the content script the variable
    [inspector] holds the instance constructed last; an invocation of
    [activateInspector] that resumes after [await initialize()] finds it
    set, so [inspector.activate()] is called on an instance and never on
    [undefined]; and every call ever made was made on a constructed
    instance. *)
Theorem resume_finds_inspector evs :
  let st := run init evs in
  inspector st = match created st with O => None | S n => Some n end ∧
  Forall (λ c, target c < created st) (calls st) ∧
  (0 < resuming st →
   ∃ i, inspector st = Some i ∧ calls (step st Resumed) = calls st ++ [Activate i]).
Proof.
  intros st. destruct (consistent_run evs init consistent_init) as (Hi & Hr & Hc).
  fold st in Hi, Hr, Hc. split; [done|]. split; [done|].
  intros Hres. specialize (Hr Hres).
  destruct (created st) as [|n]; [lia|]. exists n. split; [done|].
  simpl. destruct (resuming st); [lia|]. unfold resumed; simpl. by rewrite Hi.
Qed.

Lemma idle_step st e :
  e ≠ Message "activateInspector" →
  inspector st = None → created st = 0 → importing st = 0 → resuming st = 0 →
  calls st = [] →
  inspector (step st e) = None ∧ created (step st e) = 0 ∧ importing (step st e) = 0 ∧
  resuming (step st e) = 0 ∧ calls (step st e) = [].
Proof.
  intros He Hi Hc Him Hr Hcalls. destruct e as [action| | |]; simpl.
  - unfold onMessage. case_bool_decide as Ha; [by destruct He; subst|].
    repeat case_bool_decide; try done.
    unfold deactivateInspector; simpl. by rewrite Hi.
  - by rewrite Him.
  - by rewrite Him.
  - by rewrite Hr.
Qed.

(** X15: Until the first [activateInspector] message nothing touches an
    inspector: [deactivateInspector], the two notification messages and
    unknown actions construct no instance, start no import and call no
    method. *)
Theorem no_inspector_before_activation evs :
  Forall (λ e, e ≠ Message "activateInspector") evs →
  let st := run init evs in
  inspector st = None ∧ created st = 0 ∧ importing st = 0 ∧ calls st = [].
Proof.
  intros Hevs.
  assert (Hgen : ∀ st, inspector st = None → created st = 0 → importing st = 0 →
            resuming st = 0 → calls st = [] →
            inspector (run st evs) = None ∧ created (run st evs) = 0 ∧
            importing (run st evs) = 0 ∧ resuming (run st evs) = 0 ∧
            calls (run st evs) = []).
  { induction Hevs as [|e evs He Hevs IH]; intros st Hi Hc Him Hr Hcalls; [done|].
    simpl. destruct (idle_step st e He Hi Hc Him Hr Hcalls) as (?&?&?&?&?).
    by apply IH. }
  destruct (Hgen init) as (?&?&?&?&?); done.
Qed.

Lemma no_inspector_before_activation_witness :
  let st := run init [Message "deactivateInspector"; Message "activateNotification";
                      Imported; Message "stop"; Resumed;
                      Message "deactivateNotification"] in
  inspector st = None ∧ created st = 0 ∧ importing st = 0 ∧ calls st = [].
Proof.
  refine (no_inspector_before_activation
            [Message "deactivateInspector"; Message "activateNotification";
             Imported; Message "stop"; Resumed; Message "deactivateNotification"] _).
  repeat constructor; done.
Defined.

Lemma settled_step st e i :
  inspector st = Some i → importing st = 0 →
  inspector (step st e) = Some i ∧ importing (step st e) = 0 ∧
  created (step st e) = created st ∧
  ∃ new, calls (step st e) = calls st ++ new ∧ Forall (λ c, target c = i) new.
Proof.
  intros Hi Him. destruct e as [action| | |]; simpl.
  - unfold onMessage. repeat case_bool_decide.
    + unfold activateInspector; simpl. rewrite Hi. simpl.
      repeat split; try done. exists [Activate i]. by repeat constructor.
    + unfold deactivateInspector; simpl. rewrite Hi. simpl.
      repeat split; try done. exists [Deactivate i]. by repeat constructor.
    + repeat split; try done. exists []. by rewrite app_nil_r.
    + repeat split; try done. exists []. by rewrite app_nil_r.
    + repeat split; try done. exists []. by rewrite app_nil_r.
  - rewrite Him. repeat split; try done. exists []. by rewrite app_nil_r.
  - rewrite Him. repeat split; try done. exists []. by rewrite app_nil_r.
  - destruct (resuming st); [repeat split; try done; exists []; by rewrite app_nil_r|].
    unfold resumed; simpl. rewrite Hi. simpl.
    repeat split; try done. exists [Activate i]. by repeat constructor.
Qed.

(** X16: Once an inspector exists and no import is in flight, the script keeps
    that one instance for good: no later message or completion constructs
    another, and every later [activate] and [deactivate] is called on it. *)
Theorem inspector_is_kept st evs i :
  inspector st = Some i → importing st = 0 →
  inspector (run st evs) = Some i ∧
  created (run st evs) = created st ∧
  ∃ new, calls (run st evs) = calls st ++ new ∧ Forall (λ c, target c = i) new.
Proof.
  revert st. induction evs as [|e evs IH]; intros st Hi Him.
  - repeat split; try done. exists []. by rewrite app_nil_r.
  - simpl. destruct (settled_step st e i Hi Him) as (Hi' & Him' & Hc' & new1 & Hn1 & Hf1).
    destruct (IH (step st e) Hi' Him') as (Hi2 & Hc2 & new2 & Hn2 & Hf2).
    split; [done|]. split; [congruence|].
    exists (new1 ++ new2). split; [by rewrite Hn2, Hn1, app_assoc|].
    by apply Forall_app.
Qed.

Lemma inspector_is_kept_witness :
  inspector (run (run init [Message "activateInspector"; Imported; Resumed])
               [Message "activateInspector"; Imported; Message "deactivateInspector";
                Message "activateInspector"])
  = Some 0.
Proof.
  refine (proj1 (inspector_is_kept
            (run init [Message "activateInspector"; Imported; Resumed])
            [Message "activateInspector"; Imported; Message "deactivateInspector";
             Message "activateInspector"] 0 _ _)); reflexivity.
Defined.

Lemma overlapping_requests n st :
  inspector st = None →
  let st' := run st (replicate n (Message "activateInspector")) in
  inspector st' = None ∧ created st' = created st ∧
  importing st' = importing st + n ∧ resuming st' = resuming st ∧
  calls st' = calls st.
Proof.
  revert st. induction n as [|n IH]; intros st Hi; simpl.
  - repeat split; try done; lia.
  - assert (Hstep : onMessage "activateInspector" st
                    = mkState None (created st) (S (importing st)) (resuming st)
                              (calls st) (console st ++ ["activateInspector"])).
    { unfold onMessage. rewrite bool_decide_eq_true_2 by done.
      unfold activateInspector; simpl. by rewrite Hi. }
    rewrite Hstep.
    destruct (IH (mkState None (created st) (S (importing st)) (resuming st)
                          (calls st) (console st ++ ["activateInspector"])) eq_refl)
      as (? & ? & ? & ? & ?).
    simpl in *. repeat split; try done; lia.
Qed.

Lemma overlapping_imports n st :
  n ≤ importing st →
  let st' := run st (replicate n Imported) in
  created st' = created st + n ∧ resuming st' = resuming st + n ∧
  importing st' = importing st - n ∧ calls st' = calls st ∧
  (0 < n → inspector st' = Some (created st + n - 1)).
Proof.
  revert st. induction n as [|n IH]; intros st Hn; simpl.
  - repeat split; try lia; done.
  - destruct (importing st) as [|m] eqn:Hm; [lia|].
    set (st1 := initialized _).
    destruct (IH st1) as (Hc & Hr & Him & Hcalls & Hins); [simpl; lia|].
    simpl in *. repeat split; try lia; try done.
    intros _. destruct n as [|n'].
    + simpl. f_equal. lia.
    + rewrite Hins by lia. f_equal. lia.
Qed.

Lemma overlapping_resumes n st i :
  inspector st = Some i → n ≤ resuming st →
  calls (run st (replicate n Resumed)) = calls st ++ replicate n (Activate i) ∧
  created (run st (replicate n Resumed)) = created st ∧
  inspector (run st (replicate n Resumed)) = Some i.
Proof.
  revert st. induction n as [|n IH]; intros st Hi Hn; simpl.
  - by rewrite app_nil_r.
  - destruct (resuming st) as [|m] eqn:Hm; [lia|].
    unfold resumed; simpl. rewrite Hi.
    set (st1 := call _ _).
    destruct (IH st1) as (Hc & Hcr & Hins); [done|simpl; lia|].
    rewrite Hc, Hcr, Hins. simpl. by rewrite <- app_assoc.
Qed.

(** X17: The lazy initialization is not guarded against overlap: when [n + 1]
    activation messages arrive before the first import completes, [n + 1]
    inspectors are constructed, and when all imports complete before the
    invocations resume, every call of [activate] goes to the instance made
    last; the [n] instances made before it are never activated. *)
Theorem overlapping_activations_construct_many n :
  let st := run init (replicate (S n) (Message "activateInspector")
                      ++ replicate (S n) Imported ++ replicate (S n) Resumed) in
  created st = S n ∧ inspector st = Some n ∧ calls st = replicate (S n) (Activate n).
Proof.
  intros st. unfold st, run. rewrite !foldl_app.
  fold (run init (replicate (S n) (Message "activateInspector"))).
  destruct (overlapping_requests (S n) init eq_refl)
    as (Hi1 & Hc1 & Him1 & Hr1 & Hcalls1).
  set (st1 := run init (replicate (S n) (Message "activateInspector"))) in *.
  fold (run st1 (replicate (S n) Imported)).
  destruct (overlapping_imports (S n) st1) as (Hc2 & Hr2 & Him2 & Hcalls2 & Hi2);
    [rewrite Him1; simpl; lia|].
  set (st2 := run st1 (replicate (S n) Imported)) in *.
  fold (run st2 (replicate (S n) Resumed)).
  rewrite Hc1 in Hc2, Hi2. simpl in Hc2, Hi2.
  specialize (Hi2 ltac:(lia)). rewrite Nat.sub_0_r in Hi2.
  destruct (overlapping_resumes (S n) st2 n Hi2) as (Hc3 & Hcr3 & Hi3);
    [rewrite Hr2, Hr1; simpl; lia|].
  by rewrite Hc3, Hcr3, Hi3, Hcalls2, Hcalls1, Hc2.
Qed.

End ContentFacts.

(** * Facts about the windows of the control process *)

Module ShellFacts.
Import Shell.

Lemma shell_ok_ready : shell_ok ready.
Proof.
  split; [by right; left|]. split; [done|]. split.
  - apply NoDup_cons. split; [|apply NoDup_singleton].
    intros H. by apply list_elem_of_singleton in H.
  - repeat constructor.
Qed.

Lemma shell_ok_createWindow st : shell_ok st → shell_ok (createWindow st).
Proof.
  intros (Hc & Hq & Hnd & Hlt). split; [by apply elem_of_app; left|].
  split; [done|]. split.
  - simpl. apply NoDup_app. split; [done|]. split; [|apply NoDup_singleton].
    intros x Hx Hxn. apply list_elem_of_singleton in Hxn as ->.
    pose proof (proj1 (Forall_forall _ _) Hlt _ Hx) as Hlt'. simpl in Hlt'. lia.
  - simpl. apply Forall_app. split.
    + eapply Forall_impl; [exact Hlt|]. intros x Hx. simpl in *. lia.
    + constructor; [simpl; lia|done].
Qed.

Lemma shell_ok_step darwin st e : shell_ok st → shell_ok (step darwin st e).
Proof.
  intros Hok. pose proof Hok as (Hc & Hq & Hnd & Hlt).
  destruct e as [|w]; simpl.
  - unfold on_activate. destruct (windows st) as [|w [|w' ws]] eqn:Hw;
      [by apply shell_ok_createWindow| |done].
    case_bool_decide; [by apply shell_ok_createWindow|done].
  - unfold close_requested. case_bool_decide as Hwc; [done|]. simpl.
    assert (Hin : child st ∈ filter (λ x, x ≠ w) (windows st)).
    { apply list_elem_of_filter. split; [congruence|done]. }
    destruct (filter (λ x, x ≠ w) (windows st)) as [|x xs] eqn:Hf;
      [by apply elem_of_nil in Hin|].
    split; [done|]. split; [done|]. simpl. rewrite <- Hf. split.
    + by apply NoDup_filter.
    + apply Forall_forall. intros y Hy. apply list_elem_of_filter in Hy as [_ Hy].
      by apply (proj1 (Forall_forall _ _) Hlt).
Qed.

Lemma shell_ok_run darwin evs st : shell_ok st → shell_ok (run darwin st evs).
Proof.
  revert st. induction evs as [|e evs IH]; intros st H; [done|].
  simpl. apply IH. by apply shell_ok_step.
Qed.

(** X18: The overlay window vetoes every close, so it is always among the
    windows: the list of windows is never empty, [window-all-closed] is
    never emitted, and the application never quits through its handler, on
    any platform. *)
Theorem overlay_keeps_application_alive darwin evs :
  let st := run darwin ready evs in
  child st ∈ windows st ∧ windows st ≠ [] ∧ quit st = false.
Proof.
  intros st. destruct (shell_ok_run darwin evs ready shell_ok_ready) as (Hc & Hq & _).
  fold st in Hc, Hq. split; [done|]. split; [|done].
  intros Hnil. rewrite Hnil in Hc. by apply elem_of_nil in Hc.
Qed.

(** X19: At every reachable state, [activate] opens a window exactly when the
    overlay is the only window left, and then exactly one; afterwards a
    window other than the overlay exists, and a second [activate] changes
    nothing. *)
Theorem activate_restores_one_window darwin evs :
  let st := run darwin ready evs in
  let st' := step darwin st Activate in
  (windows st = [child st] ∧ windows st' = [child st; next st]
   ∨ windows st ≠ [child st] ∧ st' = st) ∧
  (∃ w, w ∈ windows st' ∧ w ≠ child st') ∧
  step darwin st' Activate = st'.
Proof.
  intros st st'. destruct (shell_ok_run darwin evs ready shell_ok_ready)
    as (Hc & Hq & Hnd & Hlt).
  fold st in Hc, Hq, Hnd, Hlt. unfold st'. simpl. unfold on_activate.
  destruct (windows st) as [|w [|w' ws]] eqn:Hw.
  - by apply elem_of_nil in Hc.
  - apply list_elem_of_singleton in Hc. subst w.
    rewrite bool_decide_eq_true_2 by done. simpl. rewrite Hw. simpl.
    split; [by left|]. split; [|done].
    exists (next st). split; [by right; left|].
    pose proof (proj1 (Forall_forall _ _) Hlt (child st)) as Hlt'.
    specialize (Hlt' ltac:(by left)). simpl in Hlt'. lia.
  - split; [by right|]. rewrite Hw. split; [|done].
    apply NoDup_cons in Hnd as [Hw1 _].
    destruct (decide (w = child st)) as [->|Hne].
    + exists w'. split; [by right; left|]. intros ->. apply Hw1. by left.
    + exists w. split; [by left|done].
Qed.

End ShellFacts.

(** * From a click to the agent's Session *)

Module SessionFacts.

Lemma commands_of_clicks (bs : list Preload.Button) :
  omap Hub.command_of (Preload.click <$> bs) = Preload.command <$> bs.
Proof. induction bs as [|[] bs IH]; [done| |]; simpl; f_equal; exact IH. Qed.

Lemma run_messages d a c (frames : list Agent.Payload) :
  Agent.ready_of c a = Some Agent.OPEN →
  Agent.run d a (Agent.WsMessage c <$> frames) = Agent.frames_handled c frames a.
Proof.
  revert a. induction frames as [|f frames IH]; intros a Hr; [done|].
  rewrite fmap_cons, AgentFacts.run_cons, (AgentFacts.step_message_open d a c f Hr).
  rewrite IH by by rewrite AgentFacts.ready_of_onmessage. done.
Qed.

Lemma rec_of_after_frames c (frames : list Agent.Payload) f a :
  c < length (Agent.conns a) →
  Agent.rec_of c (Agent.frames_handled c (frames ++ [f]) a) = Some (Agent.is_start f).
Proof.
  intros Hc. rewrite AgentFacts.frames_handled_snoc, AgentFacts.rec_of_onmessage.
  rewrite decide_True by done. unfold Agent.rec_of.
  destruct (lookup_lt_is_Some_2 (Agent.conns (Agent.frames_handled c frames a)) c)
    as [k ->]; [by rewrite AgentFacts.conns_length_frames_handled|done].
Qed.

(** X13: End to end: an agent is connected on link [l] with its socket open, and
    [send] never throws.  The operator clicks any sequence of the two
    buttons; the frames the control process sends on [l] are delivered to
    the agent in order.  Then the agent's [recording] flag ends as the last
    click says: set after Start, cleared after Stop. *)
Theorem last_click_decides_recording ws d hub_evs clicks b a c l :
  let h := Hub.run ws Hub.init hub_evs in
  let h' := Hub.run ws h (Preload.click <$> clicks ++ [b]) in
  let frames := Agent.Text <$> drop (length (Hub.frames_to l (Hub.calls h)))
                                 (Hub.frames_to l (Hub.calls h')) in
  (∀ l o x, ws l o x = Hub.Returned) →
  l < length (Hub.sockets h) →
  Agent.ready_of c a = Some Agent.OPEN →
  Agent.rec_of c (Agent.run d a (Agent.WsMessage c <$> frames))
  = Some (match b with Preload.btnStart => true | Preload.btnStop => false end).
Proof.
  intros h h' frames Hws Hl Hr. unfold frames, h'.
  rewrite (HubFacts.frames_to_run ws _ h l Hws); [|by apply HubFacts.clients_run|done].
  rewrite drop_app_length, commands_of_clicks.
  rewrite (run_messages d a c _ Hr), !fmap_app.
  change (Agent.Text <$> (Preload.command <$> [b]))
    with [Agent.Text (Preload.command b)].
  rewrite rec_of_after_frames.
  - by destruct b.
  - unfold Agent.ready_of in Hr. apply lookup_lt_is_Some.
    by destruct (Agent.conns a !! c).
Qed.

Lemma last_click_decides_recording_witness :
  Agent.rec_of 0
    (Agent.run Agent.all_delivered
       (Agent.run Agent.all_delivered Agent.init [Agent.WsOpen 0])
       (Agent.WsMessage 0 <$>
          (Agent.Text <$>
             drop (length (Hub.frames_to 0
                             (Hub.calls (Hub.run Hub.always_returns Hub.init
                                           [Hub.Connection; Hub.IpcStop]))))
                  (Hub.frames_to 0
                     (Hub.calls
                        (Hub.run Hub.always_returns
                           (Hub.run Hub.always_returns Hub.init
                              [Hub.Connection; Hub.IpcStop])
                           (Preload.click <$> [Preload.btnStop; Preload.btnStart]
                                          ++ [Preload.btnStart])))))))
  = Some true.
Proof.
  refine (last_click_decides_recording Hub.always_returns Agent.all_delivered
            [Hub.Connection; Hub.IpcStop] [Preload.btnStop; Preload.btnStart]
            Preload.btnStart (Agent.run Agent.all_delivered Agent.init [Agent.WsOpen 0])
            0 0 _ _ _).
  - reflexivity.
  - simpl. lia.
  - reflexivity.
Defined.

End SessionFacts.
